(** * A shallow embedding of telegram_perplexity_bot.py

    The per-chat conversation history, the history-limit policy of
    [handle_message], the Perplexity client [get_perplexity_response] with
    its retry loop and usage counters, and [truncate_text].

    Python strings are sequences of code points: a [str] is a list of [Z]
    code points, and [len] is [length].  Python floats are IEEE-754 binary64
    values, modelled with the Standard Library's [spec_float] at precision 53
    and maximal exponent 1024. *)

From Stdlib Require Import String Ascii ZArith List Bool Lia.
From Stdlib Require Import SpecFloat.
Import ListNotations.

(** ** Strings *)

Definition char := Z.
Definition str := list char.

(** An ASCII literal as a Python string. *)
Definition lit (s : string) : str :=
  map (fun a => Z.of_nat (nat_of_ascii a)) (list_ascii_of_string s).

Definition NEWLINE : char := 10%Z.

(** [s.startswith(p)] *)
Fixpoint startswith (p s : str) : bool :=
  match p, s with
  | [], _ => true
  | c :: p', d :: s' => Z.eqb c d && startswith p' s'
  | _ :: _, [] => false
  end.

(** ** Floats (binary64) *)

Definition float := spec_float.
Definition fprec : Z := 53%Z.
Definition femax : Z := 1024%Z.

Definition fadd := SFadd fprec femax.
Definition fmul := SFmul fprec femax.

(** [float(z)] for a Python int: the correctly rounded binary64 value. *)
Definition float_of_Z (z : Z) : float := binary_normalize fprec femax z 0%Z false.

(** [a / b] on Python ints, [b > 0] ([long_true_divide]): the exact
    quotient rounded once to nearest-even; a rounded value beyond the
    largest float raises [OverflowError] ([None] here). *)
Definition int_truediv (a b : Z) : option float :=
  match a with
  | Z0 => Some (S754_zero false)
  | _ =>
      let '(m, e, l) := SFdiv_core_binary fprec femax (Z.abs a) 0 b 0 in
      match binary_round_aux fprec femax (Z.ltb a 0) m e l with
      | S754_infinity _ => None
      | f => Some f
      end
  end.

(** [k > f] for a Python int [k] and a float [f]: CPython compares the
    exact values. *)
Definition int_gt_float (k : Z) (f : float) : bool :=
  match f with
  | S754_zero _ => Z.ltb 0%Z k
  | S754_infinity s => s
  | S754_nan => false
  | S754_finite s m e =>
      let v := if s then Z.neg m else Z.pos m in
      if Z.leb 0 e then Z.ltb (v * 2 ^ e)%Z k
      else Z.ltb v (k * 2 ^ (- e))%Z
  end.

(** The literal [0.7]: 0x3FE6666666666666. *)
Definition F0_7 : float := S754_finite false 6305039478318694 (-53)%Z.

(** The exact value of a float as [float_num x * 2 ^ float_exp x]. *)
Definition float_num (x : float) : Z :=
  match x with S754_finite s m _ => if s then Z.neg m else Z.pos m | _ => 0%Z end.
Definition float_exp (x : float) : Z :=
  match x with S754_finite _ _ e => e | _ => 0%Z end.

(** [x <= y] on the exact values (false when either is a NaN). *)
Definition float_le (x y : float) : bool :=
  match x, y with
  | S754_nan, _ | _, S754_nan => false
  | S754_infinity true, _ | _, S754_infinity false => true
  | S754_infinity false, _ | _, S754_infinity true => false
  | _, _ =>
      let b := Z.min (float_exp x) (float_exp y) in
      Z.leb (float_num x * 2 ^ (float_exp x - b)) (float_num y * 2 ^ (float_exp y - b))
  end%Z.

(** A float that is [>= 0.0] (or [+inf]) and canonical (a finite value
    has the exponent binary64 gives it). *)
Definition nonneg_binary64 (x : float) : bool :=
  match x with
  | S754_zero _ => true
  | S754_infinity s => negb s
  | S754_nan => false
  | S754_finite s m e => negb s && Z.leb (fexp fprec femax (Zdigits2 (Z.pos m) + e)) e
  end%Z.

(** ** Configuration *)

Definition MAX_OUTPUT_TOKENS : nat := 200.
Definition MAX_OUTPUT_LENGTH : nat := 1000.
Definition MAX_HISTORY_MESSAGES : nat := 30.
Definition MAX_HISTORY_TOKENS_ESTIMATE : nat := 3500.

(** ** Messages and histories *)

Inductive Role := System | User | Assistant.

Record message := mk_message { role : Role; content : str }.

Definition SYSTEM_PROMPT : str := lit "
You are Alphy, an AI assistant. Provide neutral, brief, and straightforward information.
Focus on directly answering the user's request based on the provided context and conversation history.
Avoid speculation, opinions, or unnecessary elaboration.

DO NOT PROVIDE SEARCH RESULTS UNTILL YOURE ASKED TO DO SO.

IMPORTANT FORMAT GUIDELINES:
1. Keep answers extremely concise.
2. Use basic Markdown formatting (**bold**, *italic*) sparingly for clarity only.
3. Do not include citations.
4. Avoid lists unless essential for clarity, keep them very short.
".

Definition SYSTEM_PROMPT_MESSAGE : message := mk_message System SYSTEM_PROMPT.

(** [estimate_tokens]: [sum(len(m['content'])) // 4]. *)
Definition estimate_tokens (messages : list message) : nat :=
  Nat.div (list_sum (map (fun m => length (content m)) messages)) 4.

(** [l[-n:]] for [n > 0]. *)
Definition last_n {A} (n : nat) (l : list A) : list A := skipn (length l - n) l.

(** The history-limit section of [handle_message] (lines 231-269): from
    the stored [history] and the new [user_message], either [None] (the
    history must be reset: [history_reset_needed]) or [Some h] with [h] the
    [potential_next_history] saved as the new history. *)
Definition check_limits (history : list message) (user_message : str)
  : option (list message) :=
  let potential_next_history := history ++ [mk_message User user_message] in
  let estimated_tokens_count := estimate_tokens potential_next_history in
  if Nat.ltb MAX_HISTORY_TOKENS_ESTIMATE estimated_tokens_count then None
  else if Nat.ltb (MAX_HISTORY_MESSAGES + 1) (length potential_next_history) then
    (* [potential_next_history[0]] + potential_next_history[-30:]; the list
       is never empty, so [firstn 1] is [[p[0]]] *)
    let trimmed := firstn 1 potential_next_history
                   ++ last_n MAX_HISTORY_MESSAGES potential_next_history in
    if Nat.ltb MAX_HISTORY_TOKENS_ESTIMATE (estimate_tokens trimmed) then None
    else Some trimmed
  else Some potential_next_history.

(** ** Usage counters (module globals) *)

Record counters := mk_counters {
  total_requests : Z;
  total_tokens : Z;
  estimated_cost : float }.

Definition initial_counters : counters := mk_counters 0%Z 0%Z (S754_zero false).

(** [REQUEST_COST = 0.005]: 0x3F747AE147AE147B. *)
Definition REQUEST_COST : float := S754_finite false 5764607523034235 (-60)%Z.
(** [TOKEN_COST_PER_MILLION = 1.0] *)
Definition TOKEN_COST_PER_MILLION : float := S754_finite false 4503599627370496 (-52)%Z.

(** ** Observable effects *)

Inductive event :=
  | EvTyping                        (* send_action("typing") *)
  | EvPost (messages : list message) (* one requests.post to the API *)
  | EvSleep (seconds : Z)           (* time.sleep *)
  | EvReply (text : str).           (* update.message.reply_text *)

(** ** get_perplexity_response *)

(** What one [requests.post] attempt yields. *)
Inductive usage_field :=
  | UsageAbsent                                  (* no "usage" key *)
  | UsageDict (prompt completion : option Z)     (* a dict; [None]: key absent *)
  | UsageNotDict.                                (* "usage" is not a dict *)

Inductive choices_field :=
  | ChoicesMissing        (* a missing key on the path choices[0].message.content *)
  | ChoicesEmpty          (* "choices" is an empty list *)
  | ChoicesContent (s : str)  (* content is a JSON string *)
  | ChoicesNull               (* content is null: Python's None *)
  | ChoicesNonString.         (* content is a number, boolean, list or object *)

(** The value [result["choices"][0]["message"]["content"]] returned. *)
Inductive content_value :=
  | CStr (s : str)
  | CNone
  | CNonStr.

Inductive attempt :=
  | ATimeout                     (* requests.exceptions.Timeout *)
  | ARequestError                (* any other RequestException: connection,
                                    raise_for_status, undecodable JSON *)
  | AResponse (usage : usage_field) (choices : choices_field).

(** Exceptions raised inside the [try] block. *)
Inductive exn :=
  | ExTimeout | ExRequest | ExKeyError | ExIndexError | ExOther.

Inductive py_result :=
  | PyReturn (v : option str)    (* [None]: Python's None *)
  | PyReturnNonStr               (* a returned value that is not a str *)
  | PyRaise (e : exn).

Definition py_of_content (v : content_value) : py_result :=
  match v with
  | CStr s => PyReturn (Some s)
  | CNone => PyReturn None
  | CNonStr => PyReturnNonStr
  end.

Definition NEED_MESSAGE_MSG : str := lit "I need a message from you to respond!".
Definition TIMEOUT_MSG : str := lit "Sorry, the request timed out. Please try again later.".
Definition REQUEST_ERROR_MSG : str :=
  lit "Sorry, I encountered an error when trying to process your request. Please try again later.".
Definition PARSE_ERROR_MSG : str :=
  lit "Sorry, I had trouble understanding the response. Please try again later.".
Definition UNEXPECTED_MSG : str := lit "Sorry, an unexpected error occurred. Please try again later.".

Definition opt_default (d : Z) (o : option Z) : Z :=
  match o with Some v => v | None => d end.

(** [(input_tokens + output_tokens) / 1_000_000 * TOKEN_COST_PER_MILLION];
    [None]: the division raised [OverflowError]. *)
Definition token_cost (tokens : Z) : option float :=
  match int_truediv tokens 1000000 with
  | Some q => Some (fmul q TOKEN_COST_PER_MILLION)
  | None => None
  end.

(** The body of the [try] block (lines 159-187) on one attempt outcome. *)
Definition attempt_body (a : attempt) (c : counters) : (exn + content_value) * counters :=
  match a with
  | ATimeout => (inl ExTimeout, c)
  | ARequestError => (inl ExRequest, c)
  | AResponse usage choices =>
      let c1 := mk_counters (total_requests c + 1) (total_tokens c) (estimated_cost c) in
      let ok_c :=
        match usage with
        | UsageAbsent =>
            inr (mk_counters (total_requests c1) (total_tokens c1)
                   (fadd (estimated_cost c1) REQUEST_COST))
        | UsageDict p q =>
            let input_tokens := opt_default 0 p in
            let output_tokens := opt_default 0 q in
            let c2 := mk_counters (total_requests c1)
                        (total_tokens c1 + (input_tokens + output_tokens))
                        (estimated_cost c1) in
            match token_cost (input_tokens + output_tokens) with
            | None => inl c2             (* OverflowError *)
            | Some tc =>
                inr (mk_counters (total_requests c2) (total_tokens c2)
                       (fadd (estimated_cost c2) (fadd REQUEST_COST tc)))
            end
        | UsageNotDict => inl c1     (* AttributeError on .get *)
        end in
      match ok_c with
      | inl c' => (inl ExOther, c')
      | inr c' =>
          match choices with
          | ChoicesMissing => (inl ExKeyError, c')
          | ChoicesEmpty => (inl ExIndexError, c')
          | ChoicesContent s => (inr (CStr s), c')
          | ChoicesNull => (inr CNone, c')
          | ChoicesNonString => (inr CNonStr, c')
          end
      end
  end%Z.

(** The [while retry_count < max_retries] loop; [outcome i] is the outcome
    of the [i]-th POST.  [fuel] bounds the iterations (it is [max_retries]
    at the call). *)
Fixpoint retry_loop (fuel retry_count max_retries : nat) (messages : list message)
    (outcome : nat -> attempt) (c : counters) : py_result * counters * list event :=
  match fuel with
  | O => (PyReturn None, c, [])
  | S fuel' =>
      if Nat.ltb retry_count max_retries then
        let '(r, c') := attempt_body (outcome retry_count) c in
        match r with
        | inr v => (py_of_content v, c', [EvPost messages])
        | inl ExTimeout =>
            let retry_count' := S retry_count in
            if Nat.leb max_retries retry_count' then
              (PyReturn (Some TIMEOUT_MSG), c', [EvPost messages])
            else
              let '(r', c'', evs) :=
                retry_loop fuel' retry_count' max_retries messages outcome c' in
              (r', c'', EvPost messages :: EvSleep (2 ^ Z.of_nat retry_count')%Z :: evs)
        | inl ExRequest => (PyReturn (Some REQUEST_ERROR_MSG), c', [EvPost messages])
        | inl (ExKeyError | ExIndexError) => (PyReturn (Some PARSE_ERROR_MSG), c', [EvPost messages])
        | inl ExOther => (PyReturn (Some UNEXPECTED_MSG), c', [EvPost messages])
        end
      else (PyReturn None, c, [])
  end.

Definition get_perplexity_response (messages : list message) (max_retries : nat)
    (outcome : nat -> attempt) (c : counters) : py_result * counters * list event :=
  if Nat.leb (length messages) 1 then (PyReturn (Some NEED_MESSAGE_MSG), c, [])
  else retry_loop max_retries 0 max_retries messages outcome c.

(** ** truncate_text *)

Definition TRUNCATION_SUFFIX : str :=
  [NEWLINE; NEWLINE] ++ lit "*[Response truncated due to length...]*".

(** [s.rfind(c)] for a one-character [c]: the highest index of [c] in [s],
    or -1. *)
Fixpoint rfind_from (s : str) (c : char) (i acc : Z) : Z :=
  match s with
  | [] => acc
  | x :: s' => rfind_from s' c (i + 1)%Z (if Z.eqb x c then i else acc)
  end.

Definition rfind (s : str) (c : char) : Z := rfind_from s c 0%Z (-1)%Z.

(** ['.', '!', '?', '\n'] *)
Definition break_chars : list char := [46%Z; 33%Z; 63%Z; NEWLINE].

(** [max_length * 0.7] *)
Definition threshold (max_length : nat) : float :=
  fmul (float_of_Z (Z.of_nat max_length)) F0_7.

(** The [for char in [...]] loop: the first break character whose last
    occurrence in [text[:max_length]] lies past the threshold. *)
Fixpoint truncate_loop (chars : list char) (text : str) (max_length : nat) : str :=
  match chars with
  | [] => firstn max_length text ++ TRUNCATION_SUFFIX
  | ch :: chars' =>
      let last_complete := rfind (firstn max_length text) ch in
      if int_gt_float last_complete (threshold max_length)
      then firstn (Z.to_nat (last_complete + 1)) text ++ TRUNCATION_SUFFIX
      else truncate_loop chars' text max_length
  end.

(** [max_length] is a character count (the caller passes
    [MAX_OUTPUT_LENGTH]), so a [nat]. *)
Definition truncate_text (text : str) (max_length : nat) : str :=
  if Nat.leb (length text) max_length then text
  else truncate_loop break_chars text max_length.

(** ** handle_message and the commands *)

(** Per-chat state: [context.chat_data.get('history')] and the module-wide
    usage counters. *)
Record state := mk_state {
  chat_history : option (list message);
  usage : counters }.

Definition initial_state : state := mk_state None initial_counters.

(** The default [max_retries=3] of [get_perplexity_response]. *)
Definition MAX_RETRIES : nat := 3.

Definition SORRY_PREFIX : str := lit "Sorry,".

(** "⚠️ Conversation history became too long and has been reset. ..." *)
Definition RESET_NOTICE : str :=
  [9888%Z; 65039%Z] ++ lit " Conversation history became too long and has been reset. Please send your message again to continue.".

Definition ERROR_NOTICE : str :=
  lit "Conversation history became too long, please reset chat to continue.".

(** [handle_message].  [local_reply] is the chain of canned-reply branches
    on [user_message.lower().strip()] (lines 273-352): [Some r] when a
    branch sets [handled_locally] with [response_text = r].  [outcome] gives
    the outcomes of the API attempts. *)
Definition handle_message (local_reply : str -> option str) (outcome : nat -> attempt)
    (user_message : str) (s : state) : state * list event :=
  let history := match chat_history s with
                 | Some h => h
                 | None => [SYSTEM_PROMPT_MESSAGE]   (* setdefault *)
                 end in
  match check_limits history user_message with
  | None =>
      (mk_state (Some [SYSTEM_PROMPT_MESSAGE]) (usage s), [EvTyping; EvReply RESET_NOTICE])
  | Some history =>
      let '(r, c, api_events) :=
        match local_reply user_message with
        | Some canned => (PyReturn (Some canned), usage s, [])
        | None => get_perplexity_response history MAX_RETRIES outcome (usage s)
        end in
      match r with
      | PyReturn (Some response_text) =>
          let history' :=
            if startswith SORRY_PREFIX response_text then history
            else history ++ [mk_message Assistant response_text] in
          (mk_state (Some history') c,
           EvTyping :: api_events
             ++ [EvReply (truncate_text response_text MAX_OUTPUT_LENGTH)])
      | _ =>
          (* None or a non-str value has no startswith: the AttributeError
             reaches the outer except *)
          (mk_state (Some history) c, EvTyping :: api_events ++ [EvReply ERROR_NOTICE])
      end
  end.

Inductive command :=
  | CmdStart | CmdRestart | CmdClear | CmdHelp | CmdStats
  | CmdMessage (local_reply : str -> option str) (outcome : nat -> attempt) (text : str).

(** One update on the chat's state.  /start, /restart and /clear run
    [context.chat_data.pop('history', None)]; /help and /stats only reply. *)
Definition step (cmd : command) (s : state) : state :=
  match cmd with
  | CmdStart | CmdRestart | CmdClear => mk_state None (usage s)
  | CmdHelp | CmdStats => s
  | CmdMessage local_reply outcome text => fst (handle_message local_reply outcome text s)
  end.

Fixpoint run (cmds : list command) (s : state) : state :=
  match cmds with
  | [] => s
  | cmd :: cmds' => run cmds' (step cmd s)
  end.

(** ** The canned replies of [handle_message] (lines 277-352) *)

(** A UTF-8 literal of the source file as a Python string: the source is
    UTF-8, and its literals need at most three bytes per code point. *)
Fixpoint utf8_decode (l : list ascii) : str :=
  match l with
  | [] => []
  | a :: l1 =>
      let n := Z.of_nat (nat_of_ascii a) in
      if (n <? 128)%Z then n :: utf8_decode l1
      else match l1 with
           | [] => []
           | b :: l2 =>
               let m := Z.of_nat (nat_of_ascii b) in
               if (n <? 224)%Z then
                 Z.lor (Z.shiftl (Z.land n 31) 6) (Z.land m 63) :: utf8_decode l2
               else match l2 with
                    | [] => []
                    | d :: l3 =>
                        Z.lor (Z.shiftl (Z.land n 15) 12)
                          (Z.lor (Z.shiftl (Z.land m 63) 6)
                                 (Z.land (Z.of_nat (nat_of_ascii d)) 63)) :: utf8_decode l3
                    end
           end
  end.

Definition utf8 (s : string) : str := utf8_decode (list_ascii_of_string s).

Definition str_eqb (a b : str) : bool :=
  if list_eq_dec Z.eq_dec a b then true else false.

(** [needle in hay] on strings: a substring test. *)
Fixpoint contains (needle hay : str) : bool :=
  startswith needle hay
  || match hay with
     | [] => false
     | _ :: hay' => contains needle hay'
     end.

(** [q in [w1, w2, ...]] on a list of strings. *)
Definition in_list (q : str) (l : list str) : bool := existsb (str_eqb q) l.

(** [any(w in q for w in words)] *)
Definition any_in (words : list str) (q : str) : bool := existsb (fun w => contains w q) words.

Definition GOIDA : str := utf8 "гойда".
Definition GOIDA_REPLY : str := utf8 "Гойда, брат!".

Definition IDENTITY_PHRASES : list str := map utf8
  ["who are you"; "what are you"; "tell me about yourself"; "what's your name"; "your purpose";
   "кто ты"; "ты кто"; "что ты такое"; "как тебя зовут"; "расскажи о себе";
   "что ты умеешь"; "what can you do"; "твои возможности"; "твои функции";
   "что ты делаешь"; "для чего ты нужна"; "для чего ты нужен"; "какова твоя цель";
   "твоя задача"; "твое предназначение"]%string.

Definition RUSSIAN_IDENTITY_PHRASES : list str := map utf8
  ["кто ты"; "ты кто"; "что ты такое"; "как тебя зовут"; "расскажи о себе"; "что ты умеешь";
   "твои возможности"; "твои функции"; "что ты делаешь"; "для чего ты нужна"; "для чего ты нужен";
   "какова твоя цель"; "твоя задача"; "твое предназначение"]%string.

Definition IDENTITY_REPLY_RU : str :=
  utf8 "Я модель-трансформер, созданная на основе Llama 3.3 70B и дополненная фунциями поиска в интернете. Я отвечаю на ваши вопросы используя поиск в интернете.".
Definition IDENTITY_REPLY_EN : str :=
  utf8 "I am an AI assistant. I can answer questions and provide information based on my available data and conversation history.".

Definition GREETINGS : list str := map utf8
  ["hello"; "hi"; "hey"; "howdy"; "hola"; "greetings";
   "good morning"; "good afternoon"; "good evening";
   "привет"; "прив"; "здарова"; "здравствуй"; "Здравствуй!"; "здравствуйте";
   "доброе утро"; "добрый день"; "добрый вечер"]%string.
Definition RUSSIAN_GREETING_WORDS : list str :=
  map utf8 ["привет"; "здравствуй"; "доброе"; "добрый"]%string.

Definition FAREWELLS : list str := map utf8
  ["bye"; "goodbye"; "see you"; "see ya"; "later"; "cya";
   "пока"; "до свидания"; "увидимся"; "прощай"; "до встречи"]%string.
Definition RUSSIAN_FAREWELL_WORDS : list str := map utf8 ["пока"; "до свидания"; "прощай"]%string.

Definition THANKS : list str := map utf8
  ["thanks"; "thank you"; "thx"; "ty"; "thank you very much"; "thanks a lot";
   "спасибо"; "спс"; "благодарю"; "спасибо большое"; "огромное спасибо"]%string.
Definition RUSSIAN_THANKS_WORDS : list str := map utf8 ["спасибо"; "спс"; "благодарю"]%string.

Definition AFFIRMATIONS : list str := map utf8
  ["ok"; "okay"; "got it"; "understood"; "fine"; "alright"; "yes"; "yep"; "yeah";
   "хорошо"; "окей"; "ладно"; "понял"; "поняла"; "понятно"; "да"; "ага"]%string.
Definition RUSSIAN_AFFIRMATION_WORDS : list str := map utf8
  ["хорошо"; "окей"; "ладно"; "понял"; "поняла"; "понятно"; "да"; "ага"]%string.

Definition NEGATIONS : list str := map utf8
  ["no"; "nope"; "nah"; "not really"; "нет"; "неа"; "не"]%string.
Definition RUSSIAN_NEGATION_WORDS : list str := map utf8 ["нет"; "неа"; "не"]%string.

Definition STATEMENT_WORDS : list str := map utf8 ["меня"; "зовут"; "живу"; "лет"; "год"]%string.

(** The elif chain on [lower_query = user_message.lower().strip()]:
    [Some response_text] when a branch sets [handled_locally]. *)
Definition local_responder (lower_query : str) : option str :=
  if contains GOIDA lower_query then Some GOIDA_REPLY
  else if any_in IDENTITY_PHRASES lower_query then
    Some (if any_in RUSSIAN_IDENTITY_PHRASES lower_query then IDENTITY_REPLY_RU else IDENTITY_REPLY_EN)
  else if in_list lower_query GREETINGS || startswith (utf8 "hello") lower_query then
    Some (if any_in RUSSIAN_GREETING_WORDS lower_query then utf8 "Привет!" else utf8 "Hello!")
  else if in_list lower_query FAREWELLS then
    Some (if any_in RUSSIAN_FAREWELL_WORDS lower_query then utf8 "До свидания!" else utf8 "Goodbye!")
  else if in_list lower_query THANKS then
    Some (if any_in RUSSIAN_THANKS_WORDS lower_query then utf8 "Пожалуйста." else utf8 "You're welcome.")
  else if in_list lower_query AFFIRMATIONS then
    Some (if any_in RUSSIAN_AFFIRMATION_WORDS lower_query then utf8 "Ок." else utf8 "Okay.")
  else if in_list lower_query NEGATIONS then
    Some (if any_in RUSSIAN_NEGATION_WORDS lower_query then utf8 "Понятно." else utf8 "Understood.")
  else if startswith (utf8 "my name is") lower_query || startswith (utf8 "i am") lower_query
          || startswith (utf8 "i live in") lower_query || startswith (utf8 "i'm") lower_query
          || startswith (utf8 "меня зовут") lower_query || startswith (utf8 "я живу в") lower_query
          || startswith (utf8 "мне") lower_query && (contains (utf8 "лет") lower_query || contains (utf8 "год") lower_query)
          || startswith (utf8 "я -") lower_query || startswith (utf8 "я —") lower_query then
    Some (if any_in STATEMENT_WORDS lower_query then utf8 "Понятно." else utf8 "Noted.")
  else None.

(** The [local_reply] of [handle_message]: [local_responder] on
    [user_message.lower().strip()], with [normalize] for [.lower().strip()]. *)
Definition bot_local_reply (normalize : str -> str) (user_message : str) : option str :=
  local_responder (normalize user_message).

(** The events of [k] timed-out attempts from [retry_count = rc]: each a
    POST followed by the sleep [2 ** (rc + 1)]. *)
Fixpoint backoff (messages : list message) (rc k : nat) : list event :=
  match k with
  | O => []
  | S k' => EvPost messages :: EvSleep (2 ^ Z.of_nat (S rc))%Z :: backoff messages (S rc) k'
  end.

Definition messages_in (cmds : list command) : nat :=
  length (filter (fun cmd => match cmd with CmdMessage _ _ _ => true | _ => false end) cmds).

(** ** Repeated appends (a sequence of [appendAndBound] calls) *)

Fixpoint append_all (history : list message) (texts : list str) : option (list message) :=
  match texts with
  | [] => Some history
  | t :: texts' =>
      match check_limits history t with
      | Some h => append_all h texts'
      | None => None
      end
  end.

(** * Lemmas *)

Definition total_chars (ms : list message) : nat :=
  list_sum (map (fun m => length (content m)) ms).

Lemma estimate_tokens_total ms : estimate_tokens ms = Nat.div (total_chars ms) 4.
Proof. reflexivity. Qed.

Lemma total_chars_app l1 l2 : total_chars (l1 ++ l2) = total_chars l1 + total_chars l2.
Proof. unfold total_chars. rewrite map_app, list_sum_app. reflexivity. Qed.

Lemma total_chars_skipn k l : total_chars (skipn k l) <= total_chars l.
Proof.
  revert l; induction k as [|k IH]; intros [|m l]; simpl; try lia.
  unfold total_chars in *; simpl. specialize (IH l). lia.
Qed.

Lemma estimate_tokens_mono l1 l2 :
  total_chars l1 <= total_chars l2 -> estimate_tokens l1 <= estimate_tokens l2.
Proof. intros H. rewrite !estimate_tokens_total. apply Nat.Div0.div_le_mono. exact H. Qed.

(** The count-trimmed candidate never has more characters than the candidate. *)
Lemma trimmed_total_chars (p : list message) :
  MAX_HISTORY_MESSAGES + 1 < length p ->
  total_chars (firstn 1 p ++ last_n MAX_HISTORY_MESSAGES p) <= total_chars p.
Proof.
  intros Hlen. destruct p as [|m0 p]; simpl in Hlen; [lia|].
  unfold last_n. simpl length.
  replace (S (length p) - MAX_HISTORY_MESSAGES) with (S (length p - MAX_HISTORY_MESSAGES))
    by (unfold MAX_HISTORY_MESSAGES in *; lia).
  simpl. change (m0 :: ?l) with ([m0] ++ l). rewrite !total_chars_app.
  pose proof (total_chars_skipn (length p - MAX_HISTORY_MESSAGES) p). lia.
Qed.

Lemma last_n_length {A} n (l : list A) : n <= length l -> length (last_n n l) = n.
Proof. intros H. unfold last_n. rewrite length_skipn. lia. Qed.

Definition candidate (history : list message) (user_message : str) : list message :=
  history ++ [mk_message User user_message].

Definition trim (p : list message) : list message :=
  firstn 1 p ++ last_n MAX_HISTORY_MESSAGES p.

Lemma check_limits_unfold history u :
  check_limits history u =
  let p := candidate history u in
  if Nat.ltb MAX_HISTORY_TOKENS_ESTIMATE (estimate_tokens p) then None
  else if Nat.ltb (MAX_HISTORY_MESSAGES + 1) (length p) then
    if Nat.ltb MAX_HISTORY_TOKENS_ESTIMATE (estimate_tokens (trim p)) then None
    else Some (trim p)
  else Some p.
Proof. reflexivity. Qed.

(** Under the token limit, [check_limits] commits: the candidate, or its
    count-trimmed form when it has more than [MAX_HISTORY_MESSAGES + 1]
    entries. *)
Lemma check_limits_within history u :
  estimate_tokens (candidate history u) <= MAX_HISTORY_TOKENS_ESTIMATE ->
  check_limits history u =
    Some (if Nat.ltb (MAX_HISTORY_MESSAGES + 1) (length (candidate history u))
          then trim (candidate history u) else candidate history u).
Proof.
  intros Hest. rewrite check_limits_unfold. cbv zeta.
  destruct (Nat.ltb_spec MAX_HISTORY_TOKENS_ESTIMATE (estimate_tokens (candidate history u)))
    as [Hlt|_]; [lia|].
  destruct (Nat.ltb_spec (MAX_HISTORY_MESSAGES + 1) (length (candidate history u))) as [Hc|Hc];
    [|reflexivity].
  pose proof (estimate_tokens_mono _ _ (trimmed_total_chars _ Hc)) as Hm.
  destruct (Nat.ltb_spec MAX_HISTORY_TOKENS_ESTIMATE (estimate_tokens (trim (candidate history u))))
    as [Hlt|_]; [unfold trim in Hlt; lia|reflexivity].
Qed.

(** A history at the ceiling either resets or commits the trimmed candidate. *)
Lemma check_limits_ceiling_shape history u h' :
  length history = MAX_HISTORY_MESSAGES + 1 ->
  check_limits history u = Some h' ->
  h' = trim (candidate history u).
Proof.
  intros Hlen. rewrite check_limits_unfold. cbv zeta.
  assert (Hc : length (candidate history u) = MAX_HISTORY_MESSAGES + 2)
    by (unfold candidate; rewrite length_app; simpl; unfold MAX_HISTORY_MESSAGES in *; lia).
  rewrite Hc. replace (Nat.ltb (MAX_HISTORY_MESSAGES + 1) (MAX_HISTORY_MESSAGES + 2)) with true
    by reflexivity.
  destruct (Nat.ltb _ (estimate_tokens (candidate history u))); [discriminate|].
  destruct (Nat.ltb _ (estimate_tokens (trim _))); [discriminate|].
  intros H; injection H; auto.
Qed.

Lemma trim_ceiling history u :
  length history = MAX_HISTORY_MESSAGES + 1 ->
  hd_error history = Some SYSTEM_PROMPT_MESSAGE ->
  trim (candidate history u)
    = SYSTEM_PROMPT_MESSAGE :: last_n MAX_HISTORY_MESSAGES (candidate history u)
  /\ length (trim (candidate history u)) = MAX_HISTORY_MESSAGES + 1.
Proof.
  intros Hlen Hhd. destruct history as [|m0 rest]; [discriminate|].
  injection Hhd as ->. unfold trim, candidate. simpl firstn. split; [reflexivity|].
  simpl length. rewrite last_n_length; [reflexivity|].
  simpl in *. rewrite length_app. simpl. unfold MAX_HISTORY_MESSAGES in *; lia.
Qed.

Lemma append_all_ceiling texts : forall history h',
  length history = MAX_HISTORY_MESSAGES + 1 ->
  hd_error history = Some SYSTEM_PROMPT_MESSAGE ->
  append_all history texts = Some h' ->
  length h' = MAX_HISTORY_MESSAGES + 1 /\ hd_error h' = Some SYSTEM_PROMPT_MESSAGE.
Proof.
  induction texts as [|t texts IH]; intros history h' Hlen Hhd; simpl.
  - intros H; injection H as <-; auto.
  - destruct (check_limits history t) as [h1|] eqn:Hc; [|discriminate].
    pose proof (check_limits_ceiling_shape _ _ _ Hlen Hc) as ->.
    destruct (trim_ceiling history t Hlen Hhd) as [Heq Hl].
    apply IH; [exact Hl|]. rewrite Heq. reflexivity.
Qed.

(** How [handle_message] leaves the stored history: the seed after a
    reset, otherwise the committed history followed by at most assistant
    turns. *)
Lemma handle_message_history local_reply outcome u s :
  let history := match chat_history s with Some h => h | None => [SYSTEM_PROMPT_MESSAGE] end in
  match check_limits history u with
  | None => handle_message local_reply outcome u s
            = (mk_state (Some [SYSTEM_PROMPT_MESSAGE]) (usage s), [EvTyping; EvReply RESET_NOTICE])
  | Some h' => exists ext, chat_history (fst (handle_message local_reply outcome u s)) = Some (h' ++ ext)
                 /\ Forall (fun m => role m = Assistant) ext
  end.
Proof.
  cbv zeta. unfold handle_message.
  destruct (check_limits _ u) as [h'|]; [|reflexivity].
  destruct (match local_reply u with
            | Some canned => (PyReturn (Some canned), usage s, [])
            | None => get_perplexity_response h' MAX_RETRIES outcome (usage s)
            end) as [[r c] evs].
  destruct r as [[rt|]| |e]; cbn [fst chat_history].
  - destruct (startswith SORRY_PREFIX rt).
    + exists []. rewrite app_nil_r. split; [reflexivity|constructor].
    + exists [mk_message Assistant rt]. split; [reflexivity|repeat constructor].
  - exists []. rewrite app_nil_r. split; [reflexivity|constructor].
  - exists []. rewrite app_nil_r. split; [reflexivity|constructor].
  - exists []. rewrite app_nil_r. split; [reflexivity|constructor].
Qed.

(** A stored history of 31 entries whose second entry is very long. *)
Definition long_history : list message :=
  SYSTEM_PROMPT_MESSAGE :: mk_message User (repeat 97%Z (140 * 100))
  :: repeat (mk_message Assistant [97%Z]) 29.

(** A stored history of 31 entries of one character each after the seed. *)
Definition full_history : list message :=
  SYSTEM_PROMPT_MESSAGE :: repeat (mk_message Assistant [97%Z]) 30.

(** * Claims *)

(** C1 (as stated, refuted): at the ceiling, a history whose candidate is
    under the token limit only after count-trimming is reset, because the
    token check on the untrimmed candidate comes first. *)
Lemma C1_ceiling_reset_before_trim :
  length long_history = MAX_HISTORY_MESSAGES + 1
  /\ estimate_tokens (SYSTEM_PROMPT_MESSAGE
                      :: last_n MAX_HISTORY_MESSAGES (candidate long_history [97%Z]))
     <= MAX_HISTORY_TOKENS_ESTIMATE
  /\ check_limits long_history [97%Z] = None.
Proof. vm_compute. repeat split; lia || reflexivity. Qed.

(** C1 (amended): for a stored history of [MAX_HISTORY_MESSAGES + 1]
    entries starting with the system message, whose candidate (history plus
    the user message) is within the token limit, the committed history is
    the system message followed by the last [MAX_HISTORY_MESSAGES] entries
    of the candidate, of exactly [MAX_HISTORY_MESSAGES + 1] entries; and
    any sequence of appends that never resets stays at that length with the
    system message first. *)
Theorem C1_append_at_ceiling (history : list message) (user_message : str) :
  length history = MAX_HISTORY_MESSAGES + 1 ->
  hd_error history = Some SYSTEM_PROMPT_MESSAGE ->
  estimate_tokens (candidate history user_message) <= MAX_HISTORY_TOKENS_ESTIMATE ->
  check_limits history user_message
    = Some (SYSTEM_PROMPT_MESSAGE
            :: last_n MAX_HISTORY_MESSAGES (candidate history user_message))
  /\ length (SYSTEM_PROMPT_MESSAGE
             :: last_n MAX_HISTORY_MESSAGES (candidate history user_message))
     = MAX_HISTORY_MESSAGES + 1
  /\ (forall texts h', append_all history texts = Some h' ->
        length h' = MAX_HISTORY_MESSAGES + 1 /\ hd_error h' = Some SYSTEM_PROMPT_MESSAGE).
Proof.
  intros Hlen Hhd Hest.
  destruct (trim_ceiling history user_message Hlen Hhd) as [Heq Hl].
  rewrite (check_limits_within _ _ Hest).
  assert (Hc : length (candidate history user_message) = MAX_HISTORY_MESSAGES + 2)
    by (unfold candidate; rewrite length_app; simpl; unfold MAX_HISTORY_MESSAGES in *; lia).
  rewrite Hc. simpl Nat.ltb. cbv iota. rewrite Heq in *.
  split; [reflexivity|]. split; [exact Hl|].
  intros texts h'. apply append_all_ceiling; assumption.
Qed.

Lemma C1_append_at_ceiling_witness :
  (length full_history = MAX_HISTORY_MESSAGES + 1
   /\ hd_error full_history = Some SYSTEM_PROMPT_MESSAGE
   /\ estimate_tokens (candidate full_history [98%Z]) <= MAX_HISTORY_TOKENS_ESTIMATE)
  /\ check_limits full_history [98%Z]
       = Some (SYSTEM_PROMPT_MESSAGE
               :: last_n MAX_HISTORY_MESSAGES (candidate full_history [98%Z])).
Proof.
  assert (H1 : length full_history = MAX_HISTORY_MESSAGES + 1) by reflexivity.
  assert (H2 : hd_error full_history = Some SYSTEM_PROMPT_MESSAGE) by reflexivity.
  assert (H3 : estimate_tokens (candidate full_history [98%Z]) <= MAX_HISTORY_TOKENS_ESTIMATE)
    by (vm_compute; lia).
  split; [auto|]. apply (C1_append_at_ceiling full_history [98%Z] H1 H2 H3).
Defined.

(** C2 (as stated, refuted): a history within both bounds is reset when
    the new user message itself pushes the candidate over the token limit,
    and a history of [MAX_HISTORY_MESSAGES + 1] entries commits the trimmed
    candidate, not the candidate. *)
Lemma C2_bounded_history_can_reset :
  (estimate_tokens [SYSTEM_PROMPT_MESSAGE] <= MAX_HISTORY_TOKENS_ESTIMATE
   /\ length [SYSTEM_PROMPT_MESSAGE] <= MAX_HISTORY_MESSAGES + 1
   /\ check_limits [SYSTEM_PROMPT_MESSAGE] (repeat 97%Z (140 * 100)) = None)
  /\ (estimate_tokens full_history <= MAX_HISTORY_TOKENS_ESTIMATE
      /\ length full_history <= MAX_HISTORY_MESSAGES + 1
      /\ check_limits full_history [98%Z] <> Some (candidate full_history [98%Z])).
Proof.
  vm_compute. split; (split; [lia|split; [lia|]]); [reflexivity|].
  intros H; injection H; discriminate.
Qed.

(** C2 (amended): whenever the candidate (history plus the new user
    message) is within the token limit, [check_limits] does not reset; it
    commits the candidate when the history has at most
    [MAX_HISTORY_MESSAGES] entries, and the count-trimmed candidate
    otherwise; [handle_message] stores that history (followed by at most
    the assistant turn), not the seed. *)
Theorem C2_no_reset_within_token_limit (history : list message) (user_message : str) :
  estimate_tokens (candidate history user_message) <= MAX_HISTORY_TOKENS_ESTIMATE ->
  exists h', check_limits history user_message = Some h'
    /\ (length history <= MAX_HISTORY_MESSAGES -> h' = candidate history user_message)
    /\ (MAX_HISTORY_MESSAGES < length history -> h' = trim (candidate history user_message))
    /\ (forall local_reply outcome c, exists ext,
          chat_history (fst (handle_message local_reply outcome user_message
                                            (mk_state (Some history) c)))
          = Some (h' ++ ext)).
Proof.
  intros Hest. rewrite (check_limits_within _ _ Hest).
  assert (Hc : length (candidate history user_message) = S (length history))
    by (unfold candidate; rewrite length_app; simpl; lia).
  eexists; split; [reflexivity|]. split; [|split].
  - intros Hl. rewrite Hc. destruct (Nat.ltb_spec (MAX_HISTORY_MESSAGES + 1) (S (length history)));
      [lia|reflexivity].
  - intros Hl. rewrite Hc. destruct (Nat.ltb_spec (MAX_HISTORY_MESSAGES + 1) (S (length history)));
      [reflexivity|lia].
  - intros local_reply outcome c.
    pose proof (handle_message_history local_reply outcome user_message (mk_state (Some history) c))
      as Hh. cbv zeta in Hh. cbn [chat_history] in Hh.
    rewrite (check_limits_within _ _ Hest) in Hh.
    destruct Hh as [ext [Hext _]]. exists ext. exact Hext.
Qed.

Lemma C2_no_reset_within_token_limit_witness :
  estimate_tokens (candidate [SYSTEM_PROMPT_MESSAGE] [98%Z]) <= MAX_HISTORY_TOKENS_ESTIMATE
  /\ exists h', check_limits [SYSTEM_PROMPT_MESSAGE] [98%Z] = Some h'
    /\ (length [SYSTEM_PROMPT_MESSAGE] <= MAX_HISTORY_MESSAGES ->
        h' = candidate [SYSTEM_PROMPT_MESSAGE] [98%Z])
    /\ (MAX_HISTORY_MESSAGES < length [SYSTEM_PROMPT_MESSAGE] ->
        h' = trim (candidate [SYSTEM_PROMPT_MESSAGE] [98%Z]))
    /\ (forall local_reply outcome c, exists ext,
          chat_history (fst (handle_message local_reply outcome [98%Z]
                                            (mk_state (Some [SYSTEM_PROMPT_MESSAGE]) c)))
          = Some (h' ++ ext)).
Proof.
  assert (H : estimate_tokens (candidate [SYSTEM_PROMPT_MESSAGE] [98%Z])
              <= MAX_HISTORY_TOKENS_ESTIMATE) by (vm_compute; lia).
  split; [exact H|]. apply (C2_no_reset_within_token_limit [SYSTEM_PROMPT_MESSAGE] [98%Z] H).
Defined.

(** ** The history invariant *)

Definition is_system (m : message) : bool :=
  match role m with System => true | _ => false end.

(** The system message first, and no other system-role entry. *)
Definition history_ok (h : list message) : Prop :=
  exists t, h = SYSTEM_PROMPT_MESSAGE :: t /\ Forall (fun m => is_system m = false) t.

Definition state_ok (s : state) : Prop :=
  match chat_history s with None => True | Some h => history_ok h end.

Lemma Forall_skipn' {A} (P : A -> Prop) n l : Forall P l -> Forall P (skipn n l).
Proof.
  revert l; induction n as [|n IH]; intros l Hl; [exact Hl|].
  destruct l as [|x l]; [constructor|]. inversion Hl; subst. apply IH; assumption.
Qed.

Lemma seed_ok : history_ok [SYSTEM_PROMPT_MESSAGE].
Proof. exists []. split; [reflexivity|constructor]. Qed.

Lemma check_limits_ok h u h' :
  history_ok h -> check_limits h u = Some h' -> history_ok h'.
Proof.
  intros [t [-> Ht]]. rewrite check_limits_unfold. cbv zeta.
  assert (Hall : Forall (fun m => is_system m = false) (t ++ [mk_message User u]))
    by (apply Forall_app; split; [exact Ht|repeat constructor]).
  destruct (Nat.ltb _ (estimate_tokens _)); [discriminate|].
  destruct (Nat.ltb_spec (MAX_HISTORY_MESSAGES + 1) (length (candidate (SYSTEM_PROMPT_MESSAGE :: t) u)))
    as [Hc|Hc].
  - destruct (Nat.ltb _ (estimate_tokens _)); [discriminate|].
    intros H; injection H as <-.
    exists (last_n MAX_HISTORY_MESSAGES (candidate (SYSTEM_PROMPT_MESSAGE :: t) u)).
    split; [reflexivity|].
    unfold last_n, candidate in *. simpl app in *. simpl length in *.
    replace (S (length (t ++ [mk_message User u])) - MAX_HISTORY_MESSAGES)
      with (S (length (t ++ [mk_message User u]) - MAX_HISTORY_MESSAGES))
      by (unfold MAX_HISTORY_MESSAGES in *; lia).
    simpl skipn. apply Forall_skipn'. exact Hall.
  - intros H; injection H as <-. exists (t ++ [mk_message User u]). split; [reflexivity|exact Hall].
Qed.

Lemma step_ok cmd s : state_ok s -> state_ok (step cmd s).
Proof.
  intros Hs. destruct cmd as [| | | | |local_reply outcome text]; simpl; try exact I; try exact Hs.
  pose proof (handle_message_history local_reply outcome text s) as Hh. cbv zeta in Hh.
  assert (Hh0 : history_ok (match chat_history s with Some h => h
                                                  | None => [SYSTEM_PROMPT_MESSAGE] end)).
  { unfold state_ok in Hs. destruct (chat_history s); [exact Hs|exact seed_ok]. }
  destruct (check_limits _ text) as [h'|] eqn:Hc.
  - destruct Hh as [ext [Hext Hass]]. unfold state_ok. rewrite Hext.
    destruct (check_limits_ok _ _ _ Hh0 Hc) as [t [-> Ht]].
    exists (t ++ ext). split; [reflexivity|].
    apply Forall_app; split; [exact Ht|].
    eapply Forall_impl; [|exact Hass]. intros m Hm. unfold is_system. rewrite Hm. reflexivity.
  - rewrite Hh. exact seed_ok.
Qed.

Lemma run_ok cmds : forall s, state_ok s -> state_ok (run cmds s).
Proof.
  induction cmds as [|cmd cmds IH]; intros s Hs; simpl; [exact Hs|].
  apply IH, step_ok, Hs.
Qed.

Lemma history_ok_spec h :
  history_ok h -> hd_error h = Some SYSTEM_PROMPT_MESSAGE /\ length (filter is_system h) = 1.
Proof.
  intros [t [-> Ht]]. split; [reflexivity|]. simpl.
  assert (filter is_system t = []) as ->.
  { induction Ht as [|m t Hm Ht IH]; [reflexivity|]. simpl. rewrite Hm. exact IH. }
  reflexivity.
Qed.

(** C3: in every state reachable from the start of the process by any
    sequence of updates (messages, whatever their local or remote replies,
    and the /start, /restart, /clear, /help and /stats commands), a stored
    history is non-empty, has the system message at index 0, and has
    exactly one system-role entry; /start, /restart and /clear remove the
    whole history, which the next message seeds again. *)
Theorem C3_history_invariant (cmds : list command) :
  match chat_history (run cmds initial_state) with
  | None => True
  | Some h => h <> [] /\ hd_error h = Some SYSTEM_PROMPT_MESSAGE
              /\ length (filter is_system h) = 1
  end.
Proof.
  pose proof (run_ok cmds initial_state I) as H. unfold state_ok in H.
  destruct (chat_history _) as [h|]; [|exact I].
  destruct (history_ok_spec h H) as [Hhd Hc].
  split; [|split; assumption]. intros ->. discriminate.
Qed.

Definition stored_or_seed (s : state) : list message :=
  match chat_history s with Some h => h | None => [SYSTEM_PROMPT_MESSAGE] end.

Lemma check_limits_violation history u :
  (MAX_HISTORY_TOKENS_ESTIMATE < estimate_tokens (candidate history u)
   \/ (MAX_HISTORY_MESSAGES + 1 < length (candidate history u)
       /\ MAX_HISTORY_TOKENS_ESTIMATE < estimate_tokens (trim (candidate history u)))) ->
  check_limits history u = None.
Proof.
  intros Hv. rewrite check_limits_unfold. cbv zeta.
  destruct (Nat.ltb_spec MAX_HISTORY_TOKENS_ESTIMATE (estimate_tokens (candidate history u)))
    as [|Hle]; [reflexivity|].
  destruct Hv as [Hv|[Hl Hv]]; [lia|].
  apply Nat.ltb_lt in Hl, Hv. rewrite Hl, Hv. reflexivity.
Qed.

(** C4: when the candidate is over the token limit, directly or still after
    count-trimming, [handle_message] stores exactly the seed (the user
    message is dropped), replies with the reset notice only, and stops: the
    result does not depend on the local replies nor on the API outcomes, no
    POST is made, no assistant turn is stored and the counters are
    unchanged. *)
Theorem C4_reset_on_violation (local_reply : str -> option str) (outcome : nat -> attempt)
    (u : str) (s : state) :
  (MAX_HISTORY_TOKENS_ESTIMATE < estimate_tokens (candidate (stored_or_seed s) u)
   \/ (MAX_HISTORY_MESSAGES + 1 < length (candidate (stored_or_seed s) u)
       /\ MAX_HISTORY_TOKENS_ESTIMATE < estimate_tokens (trim (candidate (stored_or_seed s) u)))) ->
  handle_message local_reply outcome u s
  = (mk_state (Some [SYSTEM_PROMPT_MESSAGE]) (usage s), [EvTyping; EvReply RESET_NOTICE]).
Proof.
  intros Hv. pose proof (handle_message_history local_reply outcome u s) as Hh.
  cbv zeta in Hh. fold (stored_or_seed s) in Hh.
  rewrite (check_limits_violation _ _ Hv) in Hh. exact Hh.
Qed.

Lemma C4_reset_on_violation_witness :
  (MAX_HISTORY_TOKENS_ESTIMATE
     < estimate_tokens (candidate (stored_or_seed initial_state) (repeat 97%Z (140 * 100)))
   \/ (MAX_HISTORY_MESSAGES + 1
         < length (candidate (stored_or_seed initial_state) (repeat 97%Z (140 * 100)))
       /\ MAX_HISTORY_TOKENS_ESTIMATE
            < estimate_tokens (trim (candidate (stored_or_seed initial_state)
                                               (repeat 97%Z (140 * 100))))))
  /\ handle_message (fun _ => None) (fun _ => ATimeout) (repeat 97%Z (140 * 100)) initial_state
     = (mk_state (Some [SYSTEM_PROMPT_MESSAGE]) (usage initial_state),
        [EvTyping; EvReply RESET_NOTICE]).
Proof.
  assert (H : MAX_HISTORY_TOKENS_ESTIMATE
     < estimate_tokens (candidate (stored_or_seed initial_state) (repeat 97%Z (140 * 100))))
    by (vm_compute; lia).
  split; [left; exact H|].
  apply (C4_reset_on_violation (fun _ => None) (fun _ => ATimeout) _ initial_state (or_introl H)).
Defined.

(** ** The completion client's return values *)

(** The value returned by the [except] clause or the [return] that ends
    the loop, from the outcome of the attempt's [try] block (a timeout
    ends the loop only on the last attempt). *)
Definition exit_result (r : exn + content_value) : py_result :=
  match r with
  | inr v => py_of_content v
  | inl ExTimeout => PyReturn (Some TIMEOUT_MSG)
  | inl ExRequest => PyReturn (Some REQUEST_ERROR_MSG)
  | inl (ExKeyError | ExIndexError) => PyReturn (Some PARSE_ERROR_MSG)
  | inl ExOther => PyReturn (Some UNEXPECTED_MSG)
  end.

Definition fallback_messages : list str :=
  [TIMEOUT_MSG; REQUEST_ERROR_MSG; PARSE_ERROR_MSG; UNEXPECTED_MSG].

Lemma fallback_messages_sorry :
  Forall (fun m => startswith SORRY_PREFIX m = true) fallback_messages.
Proof. repeat constructor. Qed.

Lemma attempt_body_timeout a c c' :
  attempt_body a c = (inl ExTimeout, c') -> a = ATimeout /\ c' = c.
Proof.
  destruct a as [| |usage ch]; cbn [attempt_body]; intros H; try discriminate.
  - injection H as ->. split; reflexivity.
  - destruct usage as [|p q|]; [destruct ch; discriminate| |discriminate].
    destruct (token_cost _); [destruct ch|]; discriminate.
Qed.

(** A value is returned only by an attempt whose response reached
    [return result["choices"][0]["message"]["content"]]. *)
Lemma attempt_body_value a c v :
  fst (attempt_body a c) = inr v ->
  exists usage ch, a = AResponse usage ch
    /\ match v with
       | CStr s => ch = ChoicesContent s
       | CNone => ch = ChoicesNull
       | CNonStr => ch = ChoicesNonString
       end.
Proof.
  destruct a as [| |usage ch]; cbn [attempt_body fst]; intros H; try discriminate.
  exists usage, ch. split; [reflexivity|].
  destruct usage as [|p q|]; cbn in H; [|destruct (token_cost _)|discriminate];
    destruct ch; try discriminate; injection H as <-; reflexivity.
Qed.

Lemma exit_result_cases r rt :
  exit_result r = PyReturn (Some rt) ->
  In rt fallback_messages \/ r = inr (CStr rt).
Proof.
  unfold fallback_messages.
  destruct r as [[]|[s| |]]; cbn [exit_result py_of_content]; intros H;
    try discriminate H; injection H as Hrt; subst rt.
  1-5: left; cbn [In]; tauto.
  right; reflexivity.
Qed.

Lemma retry_after_timeouts k : forall fuel rc max msgs outcome c,
  rc + k < max -> k <= fuel ->
  (forall i, rc <= i < rc + k -> outcome i = ATimeout) ->
  retry_loop fuel rc max msgs outcome c =
  let '(r, c', evs) := retry_loop (fuel - k) (rc + k) max msgs outcome c in
  (r, c', backoff msgs rc k ++ evs).
Proof.
  induction k as [|k IH]; intros fuel rc max msgs outcome c Hk Hf Ho.
  - rewrite Nat.sub_0_r, Nat.add_0_r.
    destruct (retry_loop fuel rc max msgs outcome c) as [[r c'] evs]. reflexivity.
  - destruct fuel as [|fuel]; [lia|].
    transitivity (let '(r, c', evs) := retry_loop fuel (S rc) max msgs outcome c in
                  (r, c', EvPost msgs :: EvSleep (2 ^ Z.of_nat (S rc))%Z :: evs)).
    + cbn [retry_loop]. destruct (Nat.ltb_spec rc max) as [_|]; [|lia].
      rewrite (Ho rc) by lia. cbn [attempt_body].
      destruct (Nat.leb_spec max (S rc)); [lia|]. reflexivity.
    + rewrite (IH fuel (S rc) max msgs outcome c) by (first [lia | intros i Hi; apply Ho; lia]).
      replace (S fuel - S k) with (fuel - k) by lia.
      replace (rc + S k) with (S rc + k) by lia.
      destruct (retry_loop (fuel - k) (S rc + k) max msgs outcome c) as [[r c'] evs].
      reflexivity.
Qed.

(** The loop ends at the first attempt [rc + n] that is not a timeout, or
    at the last attempt: its result and counters are those of that
    attempt alone, after [n] timeouts and their back-off sleeps. *)
Lemma retry_loop_shape fuel : forall rc max msgs outcome c,
  rc < max -> max - rc <= fuel ->
  exists n, n < max - rc
    /\ (forall i, rc <= i < rc + n -> outcome i = ATimeout)
    /\ (fst (attempt_body (outcome (rc + n)) c) = inl ExTimeout -> S (rc + n) = max)
    /\ retry_loop fuel rc max msgs outcome c
       = (exit_result (fst (attempt_body (outcome (rc + n)) c)),
          snd (attempt_body (outcome (rc + n)) c),
          backoff msgs rc n ++ [EvPost msgs]).
Proof.
  induction fuel as [|fuel IH]; intros rc max msgs outcome c Hrc Hf; [lia|].
  cbn [retry_loop]. destruct (Nat.ltb_spec rc max) as [_|]; [|lia].
  destruct (attempt_body (outcome rc) c) as [[e|v] c'] eqn:Hab.
  - destruct e.
    + destruct (attempt_body_timeout _ _ _ Hab) as [Ho ->].
      destruct (Nat.leb_spec max (S rc)).
      * exists 0. rewrite Nat.add_0_r, Hab. split; [lia|split; [intros i Hi; lia|]].
        split; [intros _; lia|reflexivity].
      * destruct (IH (S rc) max msgs outcome c) as [n [Hn [Ho' [Hl Hr]]]]; [lia|lia|].
        rewrite Hr. exists (S n).
        replace (rc + S n) with (S rc + n) by lia.
        split; [lia|split; [|split; [exact Hl|reflexivity]]].
        intros i Hi. destruct (Nat.eq_dec i rc) as [->|]; [exact Ho|apply Ho'; lia].
    + exists 0. rewrite Nat.add_0_r, Hab.
      split; [lia|split; [intros i Hi; lia|split; [discriminate|reflexivity]]].
    + exists 0. rewrite Nat.add_0_r, Hab.
      split; [lia|split; [intros i Hi; lia|split; [discriminate|reflexivity]]].
    + exists 0. rewrite Nat.add_0_r, Hab.
      split; [lia|split; [intros i Hi; lia|split; [discriminate|reflexivity]]].
    + exists 0. rewrite Nat.add_0_r, Hab.
      split; [lia|split; [intros i Hi; lia|split; [discriminate|reflexivity]]].
  - exists 0. rewrite Nat.add_0_r, Hab.
    split; [lia|split; [intros i Hi; lia|split; [discriminate|reflexivity]]].
Qed.

Lemma gpr_after_timeouts msgs max outcome c k :
  1 < length msgs -> k < max -> (forall i, i < k -> outcome i = ATimeout) ->
  get_perplexity_response msgs max outcome c
  = let '(r, c', evs) := retry_loop (S (max - S k)) k max msgs outcome c in
    (r, c', backoff msgs 0 k ++ evs).
Proof.
  intros Hl Hk Ho. unfold get_perplexity_response.
  destruct (Nat.leb_spec (length msgs) 1); [lia|].
  rewrite (retry_after_timeouts k max 0 max msgs outcome c)
    by (first [lia | intros i Hi; apply Ho; lia]).
  replace (max - k) with (S (max - S k)) by lia. reflexivity.
Qed.

(** A string returned by the client is a fallback string or the content
    of the response that ended the loop, after timeouts only. *)
Lemma gpr_string_source msgs outcome c rt c' evs :
  1 < length msgs ->
  get_perplexity_response msgs MAX_RETRIES outcome c = (PyReturn (Some rt), c', evs) ->
  In rt fallback_messages
  \/ exists n usage, n < MAX_RETRIES /\ (forall i, i < n -> outcome i = ATimeout)
       /\ outcome n = AResponse usage (ChoicesContent rt).
Proof.
  intros Hl. unfold get_perplexity_response.
  destruct (Nat.leb_spec (length msgs) 1); [lia|].
  destruct (retry_loop_shape MAX_RETRIES 0 MAX_RETRIES msgs outcome c)
    as [n [Hn [Ho [_ Hr]]]]; [unfold MAX_RETRIES; lia|lia|].
  rewrite Hr. intros Hg. injection Hg as Hrt _ _.
  destruct (exit_result_cases _ _ Hrt) as [Hf|Hv]; [left; exact Hf|right].
  destruct (attempt_body_value _ _ _ Hv) as [usage [ch [Ha Hch]]].
  exists n, usage. split; [lia|split; [intros i Hi; apply Ho; lia|]].
  rewrite Ha, Hch. reflexivity.
Qed.

Lemma check_limits_length h u h' :
  h <> [] -> check_limits h u = Some h' -> 1 < length h'.
Proof.
  intros Hne. rewrite check_limits_unfold. cbv zeta.
  destruct (Nat.ltb _ (estimate_tokens _)); [discriminate|].
  destruct (Nat.ltb_spec (MAX_HISTORY_MESSAGES + 1) (length (candidate h u))) as [Hc|Hc].
  - destruct (Nat.ltb _ (estimate_tokens _)); [discriminate|].
    intros H; injection H as <-. unfold trim. rewrite length_app.
    destruct (candidate h u) as [|m p]; simpl in *; [lia|].
    rewrite last_n_length; simpl; unfold MAX_HISTORY_MESSAGES in *; lia.
  - intros H; injection H as <-. unfold candidate. rewrite length_app. simpl.
    destruct h; [contradiction|]. simpl. lia.
Qed.

(** C5: after a committed append, [handle_message] stores the reply as an
    assistant turn exactly when it is a str that does not start with
    "Sorry,"; every fallback string of the client (timeout, transport
    error, parsing error, unexpected error) starts with "Sorry,", and a
    string the client returns is one of them or the content of the
    response that ended the retry loop.  A reply that is not a str
    (None, a number, a list) is never stored.  So no fallback string is
    stored. *)
Theorem C5_fallback_not_persisted (local_reply : str -> option str)
    (outcome : nat -> attempt) (u : str) (s : state) (h' : list message) :
  state_ok s ->
  check_limits (stored_or_seed s) u = Some h' ->
  Forall (fun m => startswith SORRY_PREFIX m = true) fallback_messages
  /\ (forall rt, local_reply u = Some rt ->
        chat_history (fst (handle_message local_reply outcome u s))
        = Some (if startswith SORRY_PREFIX rt then h' else h' ++ [mk_message Assistant rt]))
  /\ (forall r c' evs, local_reply u = None ->
        get_perplexity_response h' MAX_RETRIES outcome (usage s) = (r, c', evs) ->
        match r with
        | PyReturn (Some rt) =>
            chat_history (fst (handle_message local_reply outcome u s))
            = Some (if startswith SORRY_PREFIX rt then h' else h' ++ [mk_message Assistant rt])
            /\ (In rt fallback_messages
                \/ exists n usage, n < MAX_RETRIES /\ (forall i, i < n -> outcome i = ATimeout)
                     /\ outcome n = AResponse usage (ChoicesContent rt))
        | _ => chat_history (fst (handle_message local_reply outcome u s)) = Some h'
        end).
Proof.
  intros Hs Hc. split; [exact fallback_messages_sorry|].
  assert (Hne : stored_or_seed s <> []).
  { unfold stored_or_seed, state_ok in *. destruct (chat_history s) as [h|]; [|discriminate].
    destruct Hs as [t [-> _]]. discriminate. }
  pose proof (check_limits_length _ _ _ Hne Hc) as Hl.
  split.
  - intros rt Hlr. unfold handle_message. fold (stored_or_seed s). rewrite Hc, Hlr.
    reflexivity.
  - intros r c' evs Hlr Hg.
    pose proof (gpr_string_source h' outcome (usage s)) as Hsrc.
    unfold handle_message. fold (stored_or_seed s). rewrite Hc, Hlr, Hg.
    destruct r as [[rt|]| |e]; try reflexivity.
    split; [reflexivity|exact (Hsrc rt c' evs Hl Hg)].
Qed.

(** An answer [b] to the message [a]: stored as an assistant turn. *)
Definition answer_b : nat -> attempt := fun _ => AResponse UsageAbsent (ChoicesContent [98%Z]).

Lemma C5_fallback_not_persisted_witness :
  (state_ok initial_state
   /\ check_limits (stored_or_seed initial_state) [97%Z]
      = Some (candidate [SYSTEM_PROMPT_MESSAGE] [97%Z]))
  /\ (Forall (fun m => startswith SORRY_PREFIX m = true) fallback_messages
      /\ (forall rt, (fun _ : str => @None str) [97%Z] = Some rt ->
            chat_history (fst (handle_message (fun _ => None) answer_b [97%Z] initial_state))
            = Some (if startswith SORRY_PREFIX rt then candidate [SYSTEM_PROMPT_MESSAGE] [97%Z]
                    else candidate [SYSTEM_PROMPT_MESSAGE] [97%Z] ++ [mk_message Assistant rt]))
      /\ (forall r c' evs, (fun _ : str => @None str) [97%Z] = None ->
            get_perplexity_response (candidate [SYSTEM_PROMPT_MESSAGE] [97%Z]) MAX_RETRIES answer_b
              (usage initial_state) = (r, c', evs) ->
            match r with
            | PyReturn (Some rt) =>
                chat_history (fst (handle_message (fun _ => None) answer_b [97%Z] initial_state))
                = Some (if startswith SORRY_PREFIX rt then candidate [SYSTEM_PROMPT_MESSAGE] [97%Z]
                        else candidate [SYSTEM_PROMPT_MESSAGE] [97%Z] ++ [mk_message Assistant rt])
                /\ (In rt fallback_messages
                    \/ exists n usage, n < MAX_RETRIES /\ (forall i, i < n -> answer_b i = ATimeout)
                         /\ answer_b n = AResponse usage (ChoicesContent rt))
            | _ => chat_history (fst (handle_message (fun _ => None) answer_b [97%Z] initial_state))
                   = Some (candidate [SYSTEM_PROMPT_MESSAGE] [97%Z])
            end)).
Proof.
  assert (H1 : state_ok initial_state) by exact I.
  assert (H2 : check_limits (stored_or_seed initial_state) [97%Z]
               = Some (candidate [SYSTEM_PROMPT_MESSAGE] [97%Z])) by (vm_compute; reflexivity).
  split; [split; assumption|].
  apply (C5_fallback_not_persisted (fun _ => None) answer_b [97%Z] initial_state _ H1 H2).
Defined.

(** ** Retries *)

Definition sleeps (evs : list event) : list Z :=
  flat_map (fun e => match e with EvSleep z => [z] | _ => [] end) evs.

Definition posts (evs : list event) : nat :=
  length (filter (fun e => match e with EvPost _ => true | _ => false end) evs).

Definition two_messages : list message := [SYSTEM_PROMPT_MESSAGE; mk_message User [98%Z]].

(** C6 (as stated, refuted): with a timeout on every attempt, the client
    sleeps 2 and then 4 seconds; there is no third sleep of 8. *)
Lemma C6_no_third_backoff :
  sleeps (snd (get_perplexity_response two_messages MAX_RETRIES (fun _ => ATimeout)
                 initial_counters)) = [2%Z; 4%Z]
  /\ sleeps (snd (get_perplexity_response two_messages MAX_RETRIES (fun _ => ATimeout)
                    initial_counters)) <> [2%Z; 4%Z; 8%Z].
Proof. vm_compute. split; [reflexivity|discriminate]. Qed.

(** C6 (amended): when every attempt times out, the client makes exactly
    [MAX_RETRIES] = 3 POSTs, sleeps 2^1 = 2 and 2^2 = 4 seconds between
    them (none after the last), returns the timeout string (it does not
    raise), and leaves the counters unchanged. *)
Theorem C6_all_timeouts (messages : list message) (outcome : nat -> attempt) (c : counters) :
  1 < length messages ->
  (forall i, outcome i = ATimeout) ->
  get_perplexity_response messages MAX_RETRIES outcome c
  = (PyReturn (Some TIMEOUT_MSG), c,
     [EvPost messages; EvSleep 2%Z; EvPost messages; EvSleep 4%Z; EvPost messages])
  /\ posts (snd (get_perplexity_response messages MAX_RETRIES outcome c)) = MAX_RETRIES
  /\ sleeps (snd (get_perplexity_response messages MAX_RETRIES outcome c)) = [2%Z; 4%Z].
Proof.
  intros Hl Ho.
  assert (H : get_perplexity_response messages MAX_RETRIES outcome c
              = (PyReturn (Some TIMEOUT_MSG), c,
                 [EvPost messages; EvSleep 2%Z; EvPost messages; EvSleep 4%Z; EvPost messages])).
  { unfold get_perplexity_response. destruct (Nat.leb_spec (length messages) 1); [lia|].
    unfold MAX_RETRIES. simpl. rewrite (Ho 0). simpl. rewrite (Ho 1). simpl.
    rewrite (Ho 2). reflexivity. }
  rewrite H. split; [reflexivity|split; reflexivity].
Qed.

Lemma C6_all_timeouts_witness :
  (1 < length two_messages /\ (forall i : nat, (fun _ : nat => ATimeout) i = ATimeout))
  /\ sleeps (snd (get_perplexity_response two_messages MAX_RETRIES (fun _ => ATimeout)
                    initial_counters)) = [2%Z; 4%Z].
Proof.
  assert (H1 : 1 < length two_messages) by (simpl; lia).
  assert (H2 : forall i : nat, (fun _ : nat => ATimeout) i = ATimeout) by reflexivity.
  split; [split; assumption|].
  apply (C6_all_timeouts two_messages (fun _ => ATimeout) initial_counters H1 H2).
Defined.

(** ** Rounding lemmas *)

Section Rounding.
Local Open Scope Z_scope.

Lemma digits2_pos_size p : Z.pos (digits2_pos p) = Z.pos (Pos.size p).
Proof. induction p; simpl; auto. Qed.

Lemma Zdigits2_log2 m : 0 < m -> Zdigits2 m = Z.log2 m + 1.
Proof.
  intros Hm. destruct m as [|p|p]; try lia. simpl Zdigits2. rewrite digits2_pos_size.
  destruct p; simpl; rewrite ?Pos2Z.inj_succ; lia.
Qed.

Lemma digits_bounds m : 0 < m -> 2 ^ (Zdigits2 m - 1) <= m < 2 ^ Zdigits2 m.
Proof.
  intros Hm. rewrite Zdigits2_log2 by exact Hm. replace (Z.log2 m + 1 - 1) with (Z.log2 m) by lia.
  pose proof (Z.log2_spec m Hm). rewrite <- Z.add_1_r in H. exact H.
Qed.

Lemma digits_le m d : 0 < m -> m < 2 ^ d -> Zdigits2 m <= d.
Proof.
  intros Hm Hd. rewrite Zdigits2_log2 by exact Hm. apply Z.log2_lt_pow2 in Hd; lia.
Qed.

Lemma digits_nonneg m : 0 <= m -> 0 <= Zdigits2 m.
Proof. intros Hm. destruct m; simpl; lia. Qed.

Lemma digits_mul_pow2 m j : 0 < m -> 0 <= j -> Zdigits2 (m * 2 ^ j) = Zdigits2 m + j.
Proof.
  intros Hm Hj. assert (0 < 2 ^ j) by (apply Z.pow_pos_nonneg; lia).
  rewrite !Zdigits2_log2 by nia. rewrite Z.log2_mul_pow2 by lia. lia.
Qed.

Lemma fexp_mono x y : x <= y -> fexp fprec femax x <= fexp fprec femax y.
Proof. unfold fexp, emin, fprec, femax. lia. Qed.

Lemma pow2_pos k : 0 <= k -> 0 < 2 ^ k.
Proof. intros; apply Z.pow_pos_nonneg; lia. Qed.

Lemma pow2_add a c : 0 <= a -> 0 <= c -> 2 ^ (a + c) = 2 ^ a * 2 ^ c.
Proof. intros; apply Z.pow_add_r; lia. Qed.

(** The mantissa of [shr]. *)
Lemma shr_1_m mrs : 0 <= shr_m mrs -> shr_m (shr_1 mrs) = shr_m mrs / 2.
Proof.
  destruct mrs as [m r s]; simpl. intros Hm. rewrite <- Z.div2_div.
  destruct m as [|[p|p|]|p]; reflexivity || lia.
Qed.

Lemma iter_shr_m p : forall mrs, 0 <= shr_m mrs ->
  shr_m (iter_pos shr_1 p mrs) = shr_m mrs / 2 ^ Z.pos p.
Proof.
  induction p as [p IH|p IH|]; intros mrs Hm; simpl.
  - assert (H1 : 0 <= shr_m (shr_1 mrs)) by (rewrite shr_1_m by exact Hm; apply Z.div_pos; lia).
    assert (H2 : 0 <= shr_m (iter_pos shr_1 p (shr_1 mrs)))
      by (rewrite IH by exact H1; apply Z.div_pos; [exact H1|apply pow2_pos; lia]).
    rewrite IH by exact H2. rewrite IH by exact H1. rewrite shr_1_m by exact Hm.
    rewrite !Z.div_div by (try apply Z.neq_sym; try apply Z.lt_neq; try apply pow2_pos; lia).
    f_equal. change (Z.pow_pos 2 p~1) with (2 ^ Z.pos p~1). rewrite (Pos2Z.inj_xI p).
    replace (2 * Z.pos p + 1) with (Z.pos p + Z.pos p + 1) by lia.
    rewrite !Z.pow_add_r by lia. ring.
  - assert (H2 : 0 <= shr_m (iter_pos shr_1 p mrs))
      by (rewrite IH by exact Hm; apply Z.div_pos; [exact Hm|apply pow2_pos; lia]).
    rewrite IH by exact H2. rewrite IH by exact Hm.
    rewrite Z.div_div by (try apply Z.neq_sym; try apply Z.lt_neq; try apply pow2_pos; lia).
    f_equal. change (Z.pow_pos 2 p~0) with (2 ^ Z.pos p~0). rewrite (Pos2Z.inj_xO p).
    replace (2 * Z.pos p) with (Z.pos p + Z.pos p) by lia.
    rewrite !Z.pow_add_r by lia. ring.
  - rewrite shr_1_m by exact Hm. reflexivity.
Qed.

Lemma shr_spec mrs e n : 0 <= shr_m mrs ->
  shr_m (fst (shr mrs e n)) = shr_m mrs / 2 ^ Z.max 0 n /\ snd (shr mrs e n) = e + Z.max 0 n
  /\ (n <= 0 -> fst (shr mrs e n) = mrs).
Proof.
  intros Hm. destruct n as [|p|p]; simpl.
  - rewrite Z.div_1_r. split; [reflexivity|split; [lia|auto]].
  - rewrite iter_shr_m by exact Hm. split; [reflexivity|split; [reflexivity|lia]].
  - rewrite Z.div_1_r. split; [reflexivity|split; [lia|auto]].
Qed.

Definition k_of (M e : Z) : Z := Z.max 0 (fexp fprec femax (Zdigits2 M + e) - e).

Definition round_finish (sx : bool) (m e : Z) : float :=
  match m with
  | Z0 => S754_zero sx
  | Zpos p => if Z.leb e (femax - fprec) then S754_finite sx p e else S754_infinity sx
  | Zneg _ => S754_nan
  end.

Lemma round_aux_spec sx M e l : 0 <= M ->
  exists m2, (m2 = M / 2 ^ k_of M e \/ m2 = M / 2 ^ k_of M e + 1)
    /\ (k_of M e = 0 -> l = loc_Exact -> m2 = M)
    /\ binary_round_aux fprec femax sx M e l
       = round_finish sx (m2 / 2 ^ k_of m2 (e + k_of M e)) (e + k_of M e + k_of m2 (e + k_of M e)).
Proof.
  intros HM. unfold binary_round_aux, shr_fexp.
  assert (Hl : shr_m (shr_record_of_loc M l) = M) by (destruct l as [|[]]; reflexivity).
  destruct (shr (shr_record_of_loc M l) e (fexp fprec femax (Zdigits2 M + e) - e))
    as [mrs' e'] eqn:H1.
  pose proof (shr_spec (shr_record_of_loc M l) e (fexp fprec femax (Zdigits2 M + e) - e))
    as [Hm1 [He1 Hz1]]; [lia|].
  rewrite H1 in Hm1, He1, Hz1. simpl in Hm1, He1, Hz1. rewrite Hl in Hm1.
  set (m2 := round_nearest_even (shr_m mrs') (loc_of_shr_record mrs')).
  assert (Hm2 : m2 = shr_m mrs' \/ m2 = shr_m mrs' + 1).
  { unfold m2. destruct (loc_of_shr_record mrs') as [|[]]; simpl; auto.
    destruct (Z.even _); auto. }
  assert (Hm2nn : 0 <= m2).
  { assert (0 <= shr_m mrs') by (rewrite Hm1; apply Z.div_pos; [lia|apply pow2_pos; lia]).
    lia. }
  destruct (shr (shr_record_of_loc m2 loc_Exact) e' (fexp fprec femax (Zdigits2 m2 + e') - e'))
    as [mrs'' e''] eqn:H2.
  pose proof (shr_spec (shr_record_of_loc m2 loc_Exact) e' (fexp fprec femax (Zdigits2 m2 + e') - e'))
    as [Hm3 [He3 _]]; [exact Hm2nn|].
  rewrite H2 in Hm3, He3. simpl in Hm3, He3.
  exists m2. unfold k_of. rewrite <- He1. split; [rewrite <- Hm1; exact Hm2|split].
  - intros Hk Hle. subst l. rewrite Hz1 in Hm2 by lia. unfold m2. rewrite Hz1 by lia.
    reflexivity.
  - rewrite Hm3, He3. reflexivity.
Qed.


Lemma k_of_nonneg M e : 0 <= k_of M e.
Proof. unfold k_of. lia. Qed.

Lemma k_of_ge M e : fexp fprec femax (Zdigits2 M + e) - e <= k_of M e.
Proof. unfold k_of. lia. Qed.

(** Truncating [M * 2^e] to the spacing at its magnitude keeps it above
    every smaller float. *)
Lemma trunc_lower mc ex M e b :
  0 < mc -> fexp fprec femax (Zdigits2 mc + ex) <= ex -> 0 <= M -> b <= ex -> b <= e ->
  mc * 2 ^ (ex - b) <= M * 2 ^ (e - b) ->
  mc * 2 ^ (ex - b) <= M / 2 ^ k_of M e * 2 ^ (e + k_of M e - b).
Proof.
  intros Hmc Hg HM Hbx Hbe Hle.
  pose proof (k_of_nonneg M e) as Hk0. pose proof (k_of_ge M e) as HkF.
  set (k := k_of M e) in *.
  assert (Hpk : 0 < 2 ^ k) by (apply pow2_pos; lia).
  assert (Hpe : 0 < 2 ^ (e - b)) by (apply pow2_pos; lia).
  destruct (Z.le_gt_cases (e + k) ex) as [HF|HF].
  - assert (Hs1 : mc * 2 ^ (ex - b) = (mc * 2 ^ (ex - (e + k))) * 2 ^ (e + k - b)).
    { rewrite <- Z.mul_assoc, <- Z.pow_add_r by lia. f_equal. f_equal. lia. }
    assert (Hs2 : 2 ^ (e + k - b) = 2 ^ k * 2 ^ (e - b)).
    { rewrite <- Z.pow_add_r by lia. f_equal. lia. }
    rewrite Hs1. apply Z.mul_le_mono_nonneg_r; [apply Z.lt_le_incl, pow2_pos; lia|].
    apply Z.div_le_lower_bound; [exact Hpk|].
    apply (Z.mul_le_mono_pos_r _ _ (2 ^ (e - b)) Hpe).
    rewrite Hs1, Hs2 in Hle. nia.
  - destruct (Z.eq_dec k 0) as [Hk|Hk].
    + rewrite Hk, Z.pow_0_r, Z.div_1_r, Z.add_0_r. exact Hle.
    + assert (HMpos : 0 < M).
      { destruct (Z.eq_dec M 0) as [->|]; [|lia].
        assert (0 < 2 ^ (ex - b)) by (apply pow2_pos; lia). nia. }
      pose proof (digits_bounds mc Hmc) as [_ Hmc2].
      pose proof (digits_bounds M HMpos) as [HM1 _].
      pose proof (digits_nonneg mc ltac:(lia)).
      set (dc := Zdigits2 mc) in *. set (dM := Zdigits2 M) in *.
      assert (Hkk : k = dM - 53 /\ dc + ex < dM + e).
      { unfold k, k_of in *. unfold fexp, emin, fprec, femax in *. lia. }
      destruct Hkk as [Hkd Hdc].
      assert (Hq : 2 ^ 52 <= M / 2 ^ k).
      { apply Z.div_le_lower_bound; [exact Hpk|].
        rewrite <- Z.pow_add_r by lia. replace (k + 52) with (dM - 1) by lia. exact HM1. }
      apply Z.le_trans with (2 ^ 52 * 2 ^ (e + k - b)).
      * rewrite <- Z.pow_add_r by lia.
        apply Z.le_trans with (2 ^ dc * 2 ^ (ex - b)).
        -- apply Z.mul_le_mono_nonneg_r; [apply Z.lt_le_incl, pow2_pos; lia|lia].
        -- rewrite <- Z.pow_add_r by lia. apply Z.pow_le_mono_r; lia.
      * apply Z.mul_le_mono_nonneg_r; [apply Z.lt_le_incl, pow2_pos; lia|exact Hq].
Qed.

Lemma trunc_grid M e : 0 <= M -> 0 < M / 2 ^ k_of M e ->
  fexp fprec femax (Zdigits2 (M / 2 ^ k_of M e) + (e + k_of M e)) <= e + k_of M e.
Proof.
  intros HM Hq. pose proof (k_of_nonneg M e) as Hk0. pose proof (k_of_ge M e) as HkF.
  set (k := k_of M e) in *.
  assert (Hpk : 0 < 2 ^ k) by (apply pow2_pos; lia).
  assert (HMpos : 0 < M) by (destruct (Z.eq_dec M 0) as [->|]; [rewrite Z.div_0_l in Hq; lia|lia]).
  pose proof (digits_bounds M HMpos) as [_ HM2]. set (dM := Zdigits2 M) in *.
  assert (HdM : k <= dM).
  { destruct (Z.le_gt_cases k dM) as [|Hlt]; [assumption|].
    rewrite Z.div_small in Hq; [lia|]. split; [lia|].
    apply Z.lt_le_trans with (2 ^ dM); [exact HM2|apply Z.pow_le_mono_r; lia]. }
  assert (Hd : Zdigits2 (M / 2 ^ k) <= dM - k).
  { apply digits_le; [exact Hq|]. apply Z.div_lt_upper_bound; [exact Hpk|].
    rewrite <- Z.pow_add_r by lia. replace (k + (dM - k)) with dM by lia. exact HM2. }
  apply Z.le_trans with (fexp fprec femax (dM + e)); [apply fexp_mono; lia|lia].
Qed.

Lemma round_aux_bounds M e l b : 0 <= M -> b <= e ->
  exists m3 e3, binary_round_aux fprec femax false M e l = round_finish false m3 e3
   /\ 0 <= m3 /\ e <= e3
   /\ (0 < m3 -> fexp fprec femax (Zdigits2 m3 + e3) <= e3)
   /\ m3 * 2 ^ (e3 - b) <= M * 2 ^ (e - b) + 2 ^ (e + k_of M e - b)
   /\ (forall mc ex, 0 < mc -> fexp fprec femax (Zdigits2 mc + ex) <= ex -> b <= ex ->
         mc * 2 ^ (ex - b) <= M * 2 ^ (e - b) -> mc * 2 ^ (ex - b) <= m3 * 2 ^ (e3 - b)).
Proof.
  intros HM Hb. destruct (round_aux_spec false M e l HM) as [m2 [Hm2 [_ Hr]]].
  pose proof (k_of_nonneg M e) as Hk1.
  set (k1 := k_of M e) in *. set (E := e + k1) in *.
  assert (Hp1 : 0 < 2 ^ k1) by (apply pow2_pos; lia).
  assert (Hm1 : 0 <= M / 2 ^ k1) by (apply Z.div_pos; lia).
  assert (Hm2nn : 0 <= m2) by lia.
  pose proof (k_of_nonneg m2 E) as Hk2. set (k2 := k_of m2 E) in *.
  assert (Hp2 : 0 < 2 ^ k2) by (apply pow2_pos; lia).
  exists (m2 / 2 ^ k2), (E + k2). split; [exact Hr|].
  split; [apply Z.div_pos; lia|]. split; [unfold E; lia|]. split.
  { intros Hpos. apply trunc_grid; assumption. }
  assert (HpE : 0 < 2 ^ (E - b)) by (apply pow2_pos; unfold E; lia).
  assert (HsE : 2 ^ (E + k2 - b) = 2 ^ k2 * 2 ^ (E - b)).
  { rewrite <- Z.pow_add_r by (unfold E in *; lia). f_equal. lia. }
  assert (Hse : 2 ^ (E - b) = 2 ^ k1 * 2 ^ (e - b)).
  { rewrite <- Z.pow_add_r by lia. f_equal. unfold E. lia. }
  split.
  - pose proof (Z.mul_div_le m2 (2 ^ k2) Hp2). pose proof (Z.mul_div_le M (2 ^ k1) Hp1).
    rewrite HsE. apply Z.le_trans with (m2 * 2 ^ (E - b)); [nia|].
    apply Z.le_trans with ((M / 2 ^ k1 + 1) * 2 ^ (E - b)); [nia|].
    rewrite Z.mul_add_distr_r, Z.mul_1_l. apply Z.add_le_mono_r. rewrite Hse. nia.
  - intros mc ex Hmc Hg Hbx Hle.
    pose proof (trunc_lower mc ex M e b Hmc Hg HM Hbx Hb Hle) as H1. fold k1 E in H1.
    assert (H2 : mc * 2 ^ (ex - b) <= m2 * 2 ^ (E - b)) by nia.
    exact (trunc_lower mc ex m2 E b Hmc Hg Hm2nn Hbx ltac:(unfold E; lia) H2).
Qed.


Lemma iter_xO m d : Z.pos (Pos.iter xO m d) = Z.pos m * 2 ^ Z.pos d.
Proof.
  induction d as [|d IH] using Pos.peano_ind.
  - simpl. lia.
  - rewrite Pos.iter_succ, Pos2Z.inj_succ, Z.pow_succ_r by lia.
    rewrite (Pos2Z.inj_xO (Pos.iter xO m d)), IH. ring.
Qed.

Lemma shl_align_spec m ex ex' :
  Z.pos (fst (shl_align m ex ex')) = Z.pos m * 2 ^ (ex - snd (shl_align m ex ex'))
  /\ snd (shl_align m ex ex') <= ex.
Proof.
  unfold shl_align. destruct (ex' - ex) as [|d|d] eqn:Hd; simpl.
  - rewrite Z.sub_diag. simpl. lia.
  - rewrite Z.sub_diag. simpl. lia.
  - rewrite iter_xO. replace (ex - ex') with (Z.pos d) by lia. split; [reflexivity|lia].
Qed.

Lemma round_finish_nonneg m e :
  0 <= m -> (0 < m -> fexp fprec femax (Zdigits2 m + e) <= e) ->
  nonneg_binary64 (round_finish false m e) = true.
Proof.
  intros Hm Hg. destruct m as [|p|p]; simpl; [reflexivity| |lia].
  destruct (Z.leb e _); simpl; [|reflexivity].
  apply Z.leb_le. apply Hg. lia.
Qed.

Lemma round_aux_nonneg M e l : 0 <= M ->
  nonneg_binary64 (binary_round_aux fprec femax false M e l) = true.
Proof.
  intros HM. destruct (round_aux_bounds M e l e HM ltac:(lia))
    as [m3 [e3 [-> [Hm3 [_ [Hg _]]]]]].
  apply round_finish_nonneg; assumption.
Qed.

(** The value of a non-negative finite float [mc * 2^ex] at most
    [M * 2^e] is at most the rounded value. *)
Lemma round_aux_ge mc ex M e l b :
  0 <= M -> b <= ex -> b <= e ->
  nonneg_binary64 (S754_finite false mc ex) = true ->
  Z.pos mc * 2 ^ (ex - b) <= M * 2 ^ (e - b) ->
  float_le (S754_finite false mc ex) (binary_round_aux fprec femax false M e l) = true.
Proof.
  intros HM Hbx Hbe Hc Hle. simpl in Hc. apply Z.leb_le in Hc.
  destruct (round_aux_bounds M e l b HM Hbe) as [m3 [e3 [-> [Hm3 [He3 [_ [_ Hlow]]]]]]].
  specialize (Hlow (Z.pos mc) ex ltac:(lia) Hc Hbx Hle).
  destruct m3 as [|p|p]; [|unfold round_finish|lia].
  - assert (0 < 2 ^ (ex - b)) by (apply pow2_pos; lia). rewrite Z.mul_0_l in Hlow. nia.
  - destruct (Z.leb e3 _); [|reflexivity].
    unfold float_le, float_num, float_exp; cbv beta iota zeta. apply Z.leb_le.
    set (b' := Z.min ex e3).
    assert (Hx : 2 ^ (ex - b) = 2 ^ (ex - b') * 2 ^ (b' - b))
      by (rewrite <- Z.pow_add_r by (unfold b'; lia); f_equal; lia).
    assert (Hy : 2 ^ (e3 - b) = 2 ^ (e3 - b') * 2 ^ (b' - b))
      by (rewrite <- Z.pow_add_r by (unfold b'; lia); f_equal; lia).
    assert (Hp : 0 < 2 ^ (b' - b)) by (apply pow2_pos; unfold b'; lia).
    rewrite Hx, Hy in Hlow. apply (Z.mul_le_mono_pos_r _ _ _ Hp). nia.
Qed.

Lemma float_le_refl x : nonneg_binary64 x = true -> float_le x x = true.
Proof.
  destruct x as [s|[]| |s m e]; intros H; try discriminate; try reflexivity.
  unfold float_le, float_num, float_exp; cbv beta iota zeta.
  rewrite Z.min_id, Z.sub_diag. apply Z.leb_le. lia.
Qed.

Lemma fadd_mono c d : nonneg_binary64 c = true -> nonneg_binary64 d = true ->
  float_le c (fadd c d) = true /\ nonneg_binary64 (fadd c d) = true.
Proof.
  intros Hc Hd. unfold fadd.
  destruct c as [sc|[]| |[] mc ec]; try discriminate;
  destruct d as [sd|[]| |[] md ed]; try discriminate; simpl SFadd.
  - destruct sc, sd; simpl; split; (reflexivity || (apply Z.leb_le; simpl; lia)).
  - split; reflexivity.
  - split; [unfold float_le, float_num, float_exp; cbv beta iota zeta; apply Z.leb_le; rewrite Z.mul_0_l; apply Z.mul_nonneg_nonneg; [lia|apply Z.pow_nonneg; lia]|exact Hd].
  - split; reflexivity.
  - split; reflexivity.
  - split; reflexivity.
  - split; [apply float_le_refl|]; exact Hc.
  - split; reflexivity.
  - pose proof (shl_align_spec mc ec (Z.min ec ed)) as [Hac Hec].
    pose proof (shl_align_spec md ed (Z.min ec ed)) as [Had Hed].
    destruct (shl_align mc ec (Z.min ec ed)) as [ac ec'] eqn:Ha.
    destruct (shl_align md ed (Z.min ec ed)) as [ad ed'] eqn:Hb.
    cbn [fst snd] in Hac, Hec, Had, Hed. simpl.
    assert (Hec' : ec' = Z.min ec ed).
    { unfold shl_align in Ha. destruct (Z.min ec ed - ec) eqn:E; injection Ha as _ <-; lia. }
    assert (Hed' : ed' = Z.min ec ed).
    { unfold shl_align in Hb. destruct (Z.min ec ed - ed) eqn:E; injection Hb as _ <-; lia. }
    subst ec' ed'. set (ez := Z.min ec ed) in *.
    unfold binary_round.
    pose proof (shl_align_spec (ac + ad) ez (fexp fprec femax (Z.pos (digits2_pos (ac + ad)) + ez)))
      as [Hs Hse].
    destruct (shl_align (ac + ad) ez (fexp fprec femax (Z.pos (digits2_pos (ac + ad)) + ez)))
      as [mz ez'] eqn:Hz.
    cbn [fst snd] in Hs, Hse.
    split.
    + apply round_aux_ge with (b := ez'); [lia|lia|lia|exact Hc|].
      rewrite Z.sub_diag, Z.mul_1_r, Hs. rewrite Pos2Z.inj_add.
      replace (ec - ez') with ((ec - ez) + (ez - ez')) by lia.
      rewrite Z.pow_add_r by lia.
      assert (0 < 2 ^ (ed - ez)) by (apply pow2_pos; lia).
      assert (0 < 2 ^ (ez - ez')) by (apply pow2_pos; lia).
      rewrite Hac, Had in *. nia.
    + apply round_aux_nonneg. lia.
Qed.

Lemma fmul_nonneg q : nonneg_binary64 q = true ->
  nonneg_binary64 (fmul q TOKEN_COST_PER_MILLION) = true.
Proof.
  intros Hq. unfold fmul, TOKEN_COST_PER_MILLION.
  destruct q as [[]|[]| |[] m e]; try discriminate; try reflexivity.
  unfold SFmul. apply round_aux_nonneg. lia.
Qed.

Lemma int_truediv_nonneg a b q : 0 <= a -> 0 < b -> int_truediv a b = Some q ->
  nonneg_binary64 q = true.
Proof.
  intros Ha Hb. unfold int_truediv.
  destruct a as [|a|a]; [intros H; injection H as <-; reflexivity| |lia].
  unfold SFdiv_core_binary. cbv zeta.
  set (e' := Z.min _ _).
  set (m' := match 0 - 0 - e' with Z.pos _ => _ | _ => _ end).
  assert (Hm' : 0 <= m').
  { subst m'. destruct (0 - 0 - e'); [lia| |lia].
    rewrite Z.shiftl_nonneg. lia. }
  pose proof (Z_div_mod m' b ltac:(lia)) as Hdm.
  destruct (Z.div_eucl m' b) as [qq r] eqn:Hd.
  assert (0 <= qq) by nia.
  change (Z.pos a <? 0) with false.
  pose proof (round_aux_nonneg qq e' (new_location b r) H) as Hn.
  destruct (binary_round_aux _ _ false qq e' _) eqn:E; intros Hs; try discriminate Hs;
    injection Hs as <-; exact Hn.
Qed.

Lemma token_cost_nonneg n tc : 0 <= n -> token_cost n = Some tc ->
  nonneg_binary64 tc = true.
Proof.
  unfold token_cost. intros Hn.
  destruct (int_truediv n 1000000) eqn:E; [|discriminate].
  intros H; injection H as <-. apply fmul_nonneg.
  apply (int_truediv_nonneg n 1000000); [lia|lia|exact E].
Qed.

Lemma REQUEST_COST_nonneg : nonneg_binary64 REQUEST_COST = true.
Proof. vm_compute. reflexivity. Qed.

Lemma shl_align_snd m ex ex' : ex' <= ex -> snd (shl_align m ex ex') = ex'.
Proof.
  intros H. unfold shl_align. destruct (ex' - ex) eqn:E; simpl; lia.
Qed.

Lemma fexp_small x : x <= 53 -> fexp fprec femax x = Z.max (x - 53) (-1074).
Proof. intros _. reflexivity. Qed.

Lemma float_of_Z_small N : 0 < N < 2 ^ 53 ->
  exists m, float_of_Z N = S754_finite false m (Zdigits2 N - 53)
    /\ Z.pos m = N * 2 ^ (53 - Zdigits2 N).
Proof.
  intros HN. pose proof (digits_bounds N ltac:(lia)) as [Hd1 Hd2].
  assert (Hd : Zdigits2 N <= 53) by (apply digits_le; lia).
  assert (Hd0 : 1 <= Zdigits2 N).
  { rewrite Zdigits2_log2 by lia. pose proof (Z.log2_nonneg N). lia. }
  destruct N as [|p|p]; try lia.
  unfold float_of_Z, binary_normalize, binary_round.
  change (Z.pos (digits2_pos p)) with (Zdigits2 (Z.pos p)).
  set (d := Zdigits2 (Z.pos p)) in *.
  replace (fexp fprec femax (d + 0)) with (d - 53)
    by (rewrite fexp_small by lia; lia).
  pose proof (shl_align_spec p 0 (d - 53)) as [Hs Hse].
  destruct (shl_align p 0 (d - 53)) as [mz ez] eqn:Ha. cbn [fst snd] in Hs, Hse.
  assert (Hez : ez = d - 53).
  { pose proof (shl_align_snd p 0 (d - 53) ltac:(lia)) as He. rewrite Ha in He. exact He. }
  subst ez. replace (0 - (d - 53)) with (53 - d) in Hs by lia.
  assert (Hk : k_of (Z.pos mz) (d - 53) = 0).
  { unfold k_of. rewrite Hs, digits_mul_pow2 by lia. fold d.
    rewrite fexp_small by lia. lia. }
  destruct (round_aux_spec false (Z.pos mz) (d - 53) loc_Exact ltac:(lia))
    as [m2 [_ [Hm2 Hr]]].
  rewrite Hr, (Hm2 Hk eq_refl), Hk, Z.add_0_r, Hk, Z.pow_0_r, Z.div_1_r, Z.add_0_r.
  unfold round_finish. replace (d - 53 <=? femax - fprec) with true by (symmetry; apply Z.leb_le; unfold femax, fprec; lia).
  exists mz. split; [reflexivity|exact Hs].
Qed.

Lemma gt_round_finish_false k m3 e3 b :
  0 <= m3 -> b <= e3 -> b <= 0 -> k * 2 ^ (- b) <= m3 * 2 ^ (e3 - b) ->
  int_gt_float k (round_finish false m3 e3) = false.
Proof.
  intros Hm3 Hbe Hb Hle.
  assert (Hpb : 0 < 2 ^ (- b)) by (apply pow2_pos; lia).
  assert (Hpe : 0 < 2 ^ (e3 - b)) by (apply pow2_pos; lia).
  destruct m3 as [|p|p]; [|unfold round_finish|lia].
  - unfold round_finish, int_gt_float. apply Z.ltb_ge. nia.
  - destruct (Z.leb e3 (femax - fprec)); [|reflexivity].
    unfold int_gt_float; cbv beta iota zeta.
    destruct (Z.leb_spec 0 e3) as [He|He]; apply Z.ltb_ge.
    + assert (H2 : 2 ^ (e3 - b) = 2 ^ e3 * 2 ^ (- b))
        by (rewrite <- Z.pow_add_r by lia; f_equal; lia).
      rewrite H2 in Hle. nia.
    + assert (H2 : 2 ^ (- b) = 2 ^ (- e3) * 2 ^ (e3 - b))
        by (rewrite <- Z.pow_add_r by lia; f_equal; lia).
      rewrite H2 in Hle. nia.
Qed.

Lemma gt_round_finish_true k m3 e3 b :
  0 < k -> 0 <= m3 -> b <= e3 -> b <= 0 -> (0 < m3 -> e3 <= femax - fprec) ->
  m3 * 2 ^ (e3 - b) < k * 2 ^ (- b) ->
  int_gt_float k (round_finish false m3 e3) = true.
Proof.
  intros Hk Hm3 Hbe Hb Hinf Hlt.
  assert (Hpe : 0 < 2 ^ (e3 - b)) by (apply pow2_pos; lia).
  destruct m3 as [|p|p]; [|unfold round_finish|lia].
  - unfold round_finish, int_gt_float. apply Z.ltb_lt. exact Hk.
  - replace (Z.leb e3 (femax - fprec)) with true
      by (symmetry; apply Z.leb_le; apply Hinf; lia).
    unfold int_gt_float; cbv beta iota zeta.
    destruct (Z.leb_spec 0 e3) as [He|He]; apply Z.ltb_lt.
    + assert (Hpb : 0 < 2 ^ (- b)) by (apply pow2_pos; lia).
      assert (H2 : 2 ^ (e3 - b) = 2 ^ e3 * 2 ^ (- b))
        by (rewrite <- Z.pow_add_r by lia; f_equal; lia).
      rewrite H2 in Hlt. nia.
    + assert (H2 : 2 ^ (- b) = 2 ^ (- e3) * 2 ^ (e3 - b))
        by (rewrite <- Z.pow_add_r by lia; f_equal; lia).
      rewrite H2 in Hlt. nia.
Qed.

(** Away from the exact 70% point, [k > max_length * 0.7] is the exact
    comparison [10 * k > 7 * max_length] for lengths below 2^48. *)
Lemma threshold_cmp n k : Z.of_nat n < 2 ^ 48 -> 10 * k <> 7 * Z.of_nat n ->
  int_gt_float k (threshold n) = (7 * Z.of_nat n <? 10 * k).
Proof.
  intros Hn Hne. unfold threshold. set (N := Z.of_nat n) in *.
  destruct (Z.eq_dec N 0) as [HN0|HN0].
  { rewrite HN0. change (fmul (float_of_Z 0) F0_7) with (S754_zero false).
    unfold int_gt_float. apply Bool.eq_iff_eq_true. rewrite !Z.ltb_lt. lia. }
  assert (HNpos : 0 < N) by lia.
  destruct (float_of_Z_small N) as [m [Hf Hm]]; [lia|].
  pose proof (digits_bounds N HNpos) as [Hd1 Hd2].
  assert (Hd : Zdigits2 N <= 48) by (apply digits_le; lia).
  assert (Hd0 : 1 <= Zdigits2 N).
  { rewrite Zdigits2_log2 by lia. pose proof (Z.log2_nonneg N). lia. }
  set (d := Zdigits2 N) in *.
  rewrite Hf. unfold fmul, F0_7, SFmul. cbn [xorb].
  set (M := Z.pos (m * 6305039478318694)).
  set (P := 2 ^ (53 - d)).
  assert (HP : 0 < P) by (apply pow2_pos; lia).
  assert (HM : M = N * P * 6305039478318694)
    by (unfold M; rewrite Pos2Z.inj_mul, Hm; reflexivity).
  assert (HPd : P * 2 ^ d = 2 ^ 53)
    by (unfold P; rewrite <- Z.pow_add_r by lia; f_equal; lia).
  set (b := d - 53 + -53).
  assert (Hb : 2 ^ (- b) = P * 2 ^ 53)
    by (unfold P, b; rewrite <- Z.pow_add_r by lia; f_equal; lia).
  destruct (round_aux_bounds M b loc_Exact b ltac:(lia) ltac:(lia))
    as [m3 [e3 [Hr [Hm3 [He3 [_ [Hup Hlow]]]]]]].
  rewrite Hr. rewrite Z.sub_diag, Z.mul_1_r in Hup, Hlow.
  replace (b + k_of M b - b) with (k_of M b) in Hup by lia.
  assert (Hk53 : 2 ^ k_of M b <= 2 ^ 53).
  { apply Z.pow_le_mono_r; [lia|]. unfold k_of.
    assert (HdM : Zdigits2 M <= 106).
    { apply digits_le; [lia|]. rewrite HM.
      change (2 ^ 106) with (2 ^ 53 * 2 ^ 53). rewrite <- HPd. nia. }
    pose proof (fexp_mono (Zdigits2 M + b) (106 + b) ltac:(lia)) as Hfe.
    rewrite (fexp_small (106 + b)) in Hfe by (unfold b; lia). unfold b in *. lia. }
  assert (H53 : 2 ^ 53 = 9007199254740992) by reflexivity.
  assert (H48 : 2 ^ 48 = 281474976710656) by reflexivity.
  destruct (Z_lt_le_dec 0 k) as [Hk|Hk].
  - destruct (Z_lt_ge_dec (10 * k) (7 * N)) as [Hlt|Hgt].
    + replace (7 * N <? 10 * k) with false by (symmetry; apply Z.ltb_ge; lia).
      apply (gt_round_finish_false k m3 e3 b Hm3 He3 ltac:(unfold b; lia)).
      replace (- b) with (0 - b) by lia. apply Hlow; [exact Hk| |unfold b; lia|].
      * assert (Zdigits2 k <= 48) by (apply digits_le; lia).
        rewrite fexp_small by lia. lia.
      * replace (0 - b) with (- b) by lia. rewrite Hb, HM. nia.
    + replace (7 * N <? 10 * k) with true by (symmetry; apply Z.ltb_lt; lia).
      assert (Hlt : m3 * 2 ^ (e3 - b) < k * 2 ^ (- b)).
      { rewrite Hb, HM in *.
        assert (10 * 2 ^ 53 <= P * 2 ^ 53).
        { apply Z.mul_le_mono_nonneg_r; [lia|].
          unfold P. replace (53 - d) with (4 + (49 - d)) by lia.
          rewrite Z.pow_add_r by lia. assert (0 < 2 ^ (49 - d)) by (apply pow2_pos; lia).
          change (2 ^ 4) with 16. lia. }
        nia. }
      apply (gt_round_finish_true k m3 e3 b Hk Hm3 He3 ltac:(unfold b; lia)); [|exact Hlt].
      intros Hm3p. destruct (Z.le_gt_cases e3 (femax - fprec)) as [|Hbig]; [assumption|].
      exfalso. unfold femax, fprec in Hbig.
      assert (2 ^ 107 <= 2 ^ (e3 - b)) by (apply Z.pow_le_mono_r; unfold b; lia).
      assert (M < 2 ^ 106).
      { rewrite HM. change (2 ^ 106) with (2 ^ 53 * 2 ^ 53). rewrite <- HPd. nia. }
      change (2 ^ 107) with (2 * 2 ^ 106) in *. nia.
  - replace (7 * N <? 10 * k) with false by (symmetry; apply Z.ltb_ge; lia).
    apply (gt_round_finish_false k m3 e3 b Hm3 He3 ltac:(unfold b; lia)).
    assert (0 < 2 ^ (- b)) by (apply pow2_pos; unfold b; lia).
    assert (0 < 2 ^ (e3 - b)) by (apply pow2_pos; lia). nia.
Qed.

End Rounding.

(** ** Truncation lemmas *)

Definition nonneg_float (f : float) : Prop :=
  match f with
  | S754_zero _ | S754_nan => True
  | S754_infinity s | S754_finite s _ _ => s = false
  end.

Lemma binary_round_aux_nonneg mx ex lx :
  nonneg_float (binary_round_aux fprec femax false mx ex lx).
Proof.
  unfold binary_round_aux.
  destruct (shr_fexp fprec femax mx ex lx) as [mrs' e'].
  destruct (shr_fexp fprec femax _ e' loc_Exact) as [mrs'' e''].
  destruct (shr_m mrs''); simpl; auto. destruct (Z.leb _ _); reflexivity.
Qed.

Lemma threshold_nonneg n : nonneg_float (threshold n).
Proof.
  unfold threshold, fmul, float_of_Z, F0_7.
  destruct (Z.of_nat n) as [|p|p] eqn:Hn; [simpl; exact I| |lia].
  simpl binary_normalize. unfold binary_round.
  destruct (shl_align _ _ _) as [mz ez].
  pose proof (binary_round_aux_nonneg (Z.pos mz) ez loc_Exact) as H.
  destruct (binary_round_aux fprec femax false (Z.pos mz) ez loc_Exact) as [s|s| |s m e];
    simpl in *; subst; auto.
  apply binary_round_aux_nonneg.
Qed.

Lemma int_gt_float_neg k f : (k < 0)%Z -> nonneg_float f -> int_gt_float k f = false.
Proof.
  intros Hk Hf. destruct f as [s|s| |s m e]; simpl in *; subst; auto.
  - apply Z.ltb_ge. lia.
  - destruct (Z.leb_spec 0 e).
    + apply Z.ltb_ge. pose proof (Z.pow_nonneg 2 e). nia.
    + apply Z.ltb_ge. assert (0 < 2 ^ (- e))%Z by (apply Z.pow_pos_nonneg; lia). nia.
Qed.

Lemma rfind_from_absent s c : forall i acc, ~ In c s -> rfind_from s c i acc = acc.
Proof.
  induction s as [|x s IH]; intros i acc Hn; simpl; [reflexivity|].
  destruct (Z.eqb_spec x c) as [->|Hx]; [exfalso; apply Hn; left; reflexivity|].
  apply IH. intros Hin; apply Hn; right; exact Hin.
Qed.

Lemma rfind_from_cases s c : forall i acc,
  (~ In c s /\ rfind_from s c i acc = acc)
  \/ exists s1 s2, s = s1 ++ c :: s2 /\ ~ In c s2
                   /\ rfind_from s c i acc = (i + Z.of_nat (length s1))%Z.
Proof.
  induction s as [|x s IH]; intros i acc; simpl.
  - left; split; [intros []|reflexivity].
  - destruct (IH (i + 1)%Z (if Z.eqb x c then i else acc)) as [[Hn Hr]|[s1 [s2 [-> [Hn Hr]]]]].
    + destruct (Z.eqb_spec x c) as [->|Hx].
      * right. exists [], s. split; [reflexivity|split; [exact Hn|]]. rewrite Hr. simpl. lia.
      * left. split; [intros [H|H]; [exact (Hx H)|exact (Hn H)]|exact Hr].
    + right. exists (x :: s1), s2. split; [reflexivity|split; [exact Hn|]].
      rewrite Hr. simpl length. lia.
Qed.

Lemma rfind_cases s c :
  (~ In c s /\ rfind s c = (-1)%Z)
  \/ exists s1 s2, s = s1 ++ c :: s2 /\ ~ In c s2 /\ rfind s c = Z.of_nat (length s1).
Proof. apply rfind_from_cases. Qed.

Lemma rfind_last s1 s2 c : ~ In c s2 -> rfind (s1 ++ c :: s2) c = Z.of_nat (length s1).
Proof.
  intros Hn. destruct (rfind_cases (s1 ++ c :: s2) c) as [[Hin _]|[t1 [t2 [Heq [Hn' Hr]]]]].
  - exfalso. apply Hin. apply in_or_app. right; left; reflexivity.
  - rewrite Hr. clear Hr. do 2 f_equal.
    (* two decompositions around the last occurrence coincide *)
    revert t1 Heq. induction s1 as [|x s1 IH]; intros t1 Heq; destruct t1 as [|y t1]; simpl in *.
    + reflexivity.
    + injection Heq as -> Heq. exfalso. apply Hn. rewrite Heq. apply in_or_app. right; left; reflexivity.
    + injection Heq as <- Heq. exfalso. apply Hn'. rewrite <- Heq. apply in_or_app. right; left; reflexivity.
    + injection Heq as -> Heq. rewrite (IH t1 Heq). reflexivity.
Qed.

Lemma rfind_absent s c : ~ In c s -> rfind s c = (-1)%Z.
Proof. intros Hn. apply rfind_from_absent, Hn. Qed.

Lemma In_firstn' {A} (x : A) n l : In x (firstn n l) -> In x l.
Proof. intros H. rewrite <- (firstn_skipn n l). apply in_or_app. left; exact H. Qed.

Definition past_threshold (text : str) (max_length : nat) (ch : char) : bool :=
  int_gt_float (rfind (firstn max_length text) ch) (threshold max_length).

(** The last occurrence of [ch] in [text[:max_length]] lies past 70% of
    [max_length], on exact values. *)
Definition past_70 (text : str) (max_length : nat) (ch : char) : bool :=
  (7 * Z.of_nat max_length <? 10 * rfind (firstn max_length text) ch)%Z.

Lemma past_threshold_exact text n ch :
  (Z.of_nat n < 2 ^ 48)%Z -> (10 * rfind (firstn n text) ch <> 7 * Z.of_nat n)%Z ->
  past_threshold text n ch = past_70 text n ch.
Proof. intros Hn Hne. apply threshold_cmp; assumption. Qed.

Lemma truncate_loop_skip pre ch post text n :
  Forall (fun c => past_threshold text n c = false) pre ->
  truncate_loop (pre ++ ch :: post) text n = truncate_loop (ch :: post) text n.
Proof.
  induction 1 as [|c pre Hc _ IH]; [reflexivity|].
  simpl. unfold past_threshold in Hc. rewrite Hc. exact IH.
Qed.

Lemma truncate_loop_none chars text n :
  Forall (fun c => past_threshold text n c = false) chars ->
  truncate_loop chars text n = firstn n text ++ TRUNCATION_SUFFIX.
Proof.
  induction 1 as [|c chars Hc _ IH]; [reflexivity|].
  simpl. unfold past_threshold in Hc. rewrite Hc. exact IH.
Qed.

(** The cut after the last occurrence of [ch] in [text[:n]]. *)
Lemma cut_length text n ch :
  length (firstn (Z.to_nat (rfind (firstn n text) ch + 1)) text) <= n.
Proof.
  destruct (rfind_cases (firstn n text) ch) as [[_ ->]|[s1 [s2 [Heq [_ ->]]]]].
  - simpl. lia.
  - rewrite length_firstn.
    assert (length (firstn n text) <= n) by (rewrite length_firstn; lia).
    rewrite Heq, length_app in H. simpl in H. lia.
Qed.

Lemma truncate_loop_length chars text n :
  length (truncate_loop chars text n) <= n + length TRUNCATION_SUFFIX.
Proof.
  induction chars as [|c chars IH]; cbn [truncate_loop].
  - rewrite length_app, length_firstn. lia.
  - destruct (int_gt_float _ _); [|exact IH].
    rewrite length_app. pose proof (cut_length text n c). lia.
Qed.

Lemma break_cut text n ch :
  n < length text ->
  past_threshold text n ch = true ->
  exists k, rfind (firstn n text) ch = Z.of_nat k /\ k < n /\ k < length text
    /\ nth k text 0%Z = ch
    /\ (forall j, k < j < n -> nth j text 0%Z <> ch)
    /\ int_gt_float (Z.of_nat k) (threshold n) = true.
Proof.
  unfold past_threshold. intros Hn_len Hgt.
  destruct (rfind_cases (firstn n text) ch) as [[_ Hr]|[s1 [s2 [Heq [Hn Hr]]]]].
  - rewrite Hr, (int_gt_float_neg (-1)%Z (threshold n) ltac:(lia) (threshold_nonneg n)) in Hgt. discriminate.
  - exists (length s1). rewrite Hr in Hgt.
    assert (Hlen : length (firstn n text) = length s1 + S (length s2))
      by (rewrite Heq, length_app; reflexivity).
    rewrite length_firstn, Nat.min_l in Hlen by lia.
    assert (Hnth : forall j, j < n -> nth j text 0%Z = nth j (firstn n text) 0%Z)
      by (intros j Hj; rewrite nth_firstn; destruct (Nat.ltb_spec j n); [reflexivity|lia]).
    split; [exact Hr|]. split; [lia|]. split; [lia|]. split.
    + rewrite Hnth by lia. rewrite Heq, app_nth2, Nat.sub_diag by lia. reflexivity.
    + split; [|exact Hgt]. intros j Hj. rewrite Hnth by lia. rewrite Heq, app_nth2 by lia.
      destruct (j - length s1) as [|d] eqn:Hd; [lia|]. simpl. intros Hc. apply Hn.
      rewrite <- Hc. apply nth_In. lia.
Qed.

(** C7 (as stated, refuted): the loop takes the break characters in the
    order '.', '!', '?', newline and stops at the first one past the
    threshold, so a later '!' (index 9) is not chosen over an earlier '.'
    (index 8). *)
Lemma C7_first_listed_break_wins :
  truncate_text (lit "aaaaaaaa.!aa") 10 = firstn 9 (lit "aaaaaaaa.!aa") ++ TRUNCATION_SUFFIX
  /\ truncate_text (lit "aaaaaaaa.!aa") 10 <> firstn 10 (lit "aaaaaaaa.!aa") ++ TRUNCATION_SUFFIX.
Proof. vm_compute. split; [reflexivity|discriminate]. Qed.

(** C7 (amended): when [text] is longer than [max_length] (below 2^48),
    and no break character has its last occurrence in [text[:max_length]]
    exactly at 70% of [max_length], [truncate_text] tries '.', '!', '?',
    newline in this order; for the first of them whose last occurrence in
    [text[:max_length]] lies past 70% of [max_length] (on exact values), it
    cuts [text] just after that occurrence and appends the suffix; when
    none qualifies it cuts at [max_length] and appends the suffix. *)
Theorem C7_truncate_first_break (text : str) (max_length : nat) :
  max_length < length text ->
  (Z.of_nat max_length < 2 ^ 48)%Z ->
  (forall ch, In ch break_chars ->
     10 * rfind (firstn max_length text) ch <> 7 * Z.of_nat max_length)%Z ->
  (forall pre ch post, break_chars = pre ++ ch :: post ->
     Forall (fun c => past_70 text max_length c = false) pre ->
     past_70 text max_length ch = true ->
     exists k, truncate_text text max_length = firstn (S k) text ++ TRUNCATION_SUFFIX
       /\ k < max_length /\ nth k text 0%Z = ch
       /\ (forall j, k < j < max_length -> nth j text 0%Z <> ch)
       /\ (7 * Z.of_nat max_length < 10 * Z.of_nat k)%Z)
  /\ (Forall (fun c => past_70 text max_length c = false) break_chars ->
      truncate_text text max_length = firstn max_length text ++ TRUNCATION_SUFFIX).
Proof.
  intros Hlong Hsmall Hb70.
  assert (Hex : forall ch, In ch break_chars ->
            past_threshold text max_length ch = past_70 text max_length ch)
    by (intros ch Hch; apply past_threshold_exact; [exact Hsmall|exact (Hb70 ch Hch)]).
  assert (Hall : forall l, incl l break_chars ->
            Forall (fun c => past_70 text max_length c = false) l ->
            Forall (fun c => past_threshold text max_length c = false) l).
  { intros l Hl Hf. rewrite Forall_forall in *. intros c Hc.
    rewrite Hex by (apply Hl; exact Hc). apply Hf. exact Hc. }
  unfold truncate_text.
  destruct (Nat.leb_spec (length text) max_length) as [|_]; [lia|]. split.
  - intros pre ch post Hb Hpre Hch.
    assert (Hin : In ch break_chars) by (rewrite Hb; apply in_or_app; right; left; reflexivity).
    assert (Hpre' : Forall (fun c => past_threshold text max_length c = false) pre).
    { apply Hall; [|exact Hpre]. intros c Hc. rewrite Hb. apply in_or_app. left. exact Hc. }
    assert (Hch' : past_threshold text max_length ch = true) by (rewrite Hex by exact Hin; exact Hch).
    rewrite Hb, (truncate_loop_skip _ _ _ _ _ Hpre').
    destruct (break_cut text max_length ch Hlong Hch') as [k [Hr [Hk [_ [Hnth [Hlast _]]]]]].
    exists k. cbn [truncate_loop]. unfold past_threshold in Hch'. rewrite Hch', Hr.
    replace (Z.to_nat (Z.of_nat k + 1)) with (S k) by lia.
    split; [reflexivity|]. split; [exact Hk|]. split; [exact Hnth|]. split; [exact Hlast|].
    unfold past_70 in Hch. rewrite Hr in Hch. apply Z.ltb_lt. exact Hch.
  - intros Hnone. apply truncate_loop_none. apply Hall; [intros c Hc; exact Hc|exact Hnone].
Qed.

Lemma C7_truncate_first_break_witness :
  (10 < length (lit "aaaaaaaa.!aa") /\ (Z.of_nat 10 < 2 ^ 48)%Z
   /\ (forall ch, In ch break_chars ->
         10 * rfind (firstn 10 (lit "aaaaaaaa.!aa")) ch <> 7 * Z.of_nat 10)%Z)
  /\ (forall pre ch post, break_chars = pre ++ ch :: post ->
       Forall (fun c => past_70 (lit "aaaaaaaa.!aa") 10 c = false) pre ->
       past_70 (lit "aaaaaaaa.!aa") 10 ch = true ->
       exists k, truncate_text (lit "aaaaaaaa.!aa") 10
                 = firstn (S k) (lit "aaaaaaaa.!aa") ++ TRUNCATION_SUFFIX
         /\ k < 10 /\ nth k (lit "aaaaaaaa.!aa") 0%Z = ch
         /\ (forall j, k < j < 10 -> nth j (lit "aaaaaaaa.!aa") 0%Z <> ch)
         /\ (7 * Z.of_nat 10 < 10 * Z.of_nat k)%Z)
  /\ (Forall (fun c => past_70 (lit "aaaaaaaa.!aa") 10 c = false) break_chars ->
      truncate_text (lit "aaaaaaaa.!aa") 10 = firstn 10 (lit "aaaaaaaa.!aa") ++ TRUNCATION_SUFFIX).
Proof.
  assert (H1 : 10 < length (lit "aaaaaaaa.!aa")) by (vm_compute; lia).
  assert (H2 : (Z.of_nat 10 < 2 ^ 48)%Z) by (vm_compute; reflexivity).
  assert (H3 : forall ch, In ch break_chars ->
                 (10 * rfind (firstn 10 (lit "aaaaaaaa.!aa")) ch <> 7 * Z.of_nat 10)%Z)
    by (intros ch Hch; simpl in Hch;
        destruct Hch as [<-|[<-|[<-|[<-|[]]]]]; vm_compute; discriminate).
  split; [auto|]. exact (C7_truncate_first_break (lit "aaaaaaaa.!aa") 10 H1 H2 H3).
Defined.

(** C10: the result of [truncate_text] is at most [max_length] plus the
    41 characters of the suffix; on the hard-cut path it is exactly
    [max_length + 41], longer than [max_length]. *)
Theorem C10_truncate_length_bound (text : str) (max_length : nat) :
  length TRUNCATION_SUFFIX = 41
  /\ length (truncate_text text max_length) <= max_length + length TRUNCATION_SUFFIX
  /\ (max_length < length text ->
      Forall (fun c => past_threshold text max_length c = false) break_chars ->
      length (truncate_text text max_length) = max_length + 41).
Proof.
  split; [reflexivity|]. split.
  - unfold truncate_text. destruct (Nat.leb_spec (length text) max_length).
    + lia.
    + apply truncate_loop_length.
  - intros Hlong Hnone. unfold truncate_text.
    destruct (Nat.leb_spec (length text) max_length) as [|_]; [lia|].
    rewrite (truncate_loop_none _ _ _ Hnone), length_app, length_firstn. reflexivity || (simpl; lia).
Qed.

Lemma C10_truncate_length_bound_witness :
  length (truncate_text (repeat 97%Z 20) 10) = 10 + 41.
Proof.
  assert (H1 : 10 < length (repeat 97%Z 20)) by (rewrite repeat_length; lia).
  assert (H2 : Forall (fun c => past_threshold (repeat 97%Z 20) 10 c = false) break_chars)
    by (vm_compute; repeat constructor).
  apply (C10_truncate_length_bound (repeat 97%Z 20) 10). exact H1. exact H2.
Defined.

Definition PERIOD : char := 46%Z.

Definition no_break (s : str) : Prop := Forall (fun c => ~ In c break_chars) s.

Lemma no_break_notin s c : no_break s -> In c break_chars -> ~ In c s.
Proof.
  intros Hs Hc Hin. unfold no_break in Hs. rewrite Forall_forall in Hs.
  exact (Hs c Hin Hc).
Qed.

Lemma firstn_single_period pre post n :
  length pre < n ->
  firstn n (pre ++ PERIOD :: post) = pre ++ PERIOD :: firstn (n - length pre - 1) post.
Proof.
  intros Hn. rewrite firstn_app, firstn_all2 by lia. f_equal.
  destruct (n - length pre) as [|m] eqn:Hm; [lia|]. simpl. f_equal. f_equal. lia.
Qed.

(** C8 (as stated, refuted): a period before 0.75*N but not past the 0.7*N
    threshold is not used (the text is hard-cut at N), and a cut at the
    period can be longer than the original text because of the suffix. *)
Lemma C8_early_period_not_used :
  truncate_text (PERIOD :: repeat 97%Z 200) 100
    = firstn 100 (PERIOD :: repeat 97%Z 200) ++ TRUNCATION_SUFFIX
  /\ truncate_text (PERIOD :: repeat 97%Z 200) 100
    <> firstn 1 (PERIOD :: repeat 97%Z 200) ++ TRUNCATION_SUFFIX
  /\ truncate_text (repeat 97%Z 74 ++ PERIOD :: repeat 97%Z 26) 100
    = firstn 75 (repeat 97%Z 74 ++ PERIOD :: repeat 97%Z 26) ++ TRUNCATION_SUFFIX
  /\ length (repeat 97%Z 74 ++ PERIOD :: repeat 97%Z 26) = 101
  /\ length (truncate_text (repeat 97%Z 74 ++ PERIOD :: repeat 97%Z 26) 100) = 116.
Proof. vm_compute. repeat split; discriminate || reflexivity. Qed.

(** C8 (amended): for a text longer than N (below 2^48) whose only break
    character is a period at index p before 0.75*N and not exactly at
    0.7*N: when p lies past 0.7*N, [truncate_text] returns the text up to
    and including the period followed by the suffix, of length p + 42
    (which can exceed the length of the text); when p lies before 0.7*N it
    hard-cuts at N and appends the suffix. *)
Theorem C8_truncate_single_period (pre post : str) (N : nat) :
  N < length (pre ++ PERIOD :: post) ->
  4 * length pre < 3 * N ->
  no_break pre -> no_break post ->
  (Z.of_nat N < 2 ^ 48)%Z ->
  (10 * Z.of_nat (length pre) <> 7 * Z.of_nat N)%Z ->
  ((7 * Z.of_nat N < 10 * Z.of_nat (length pre))%Z ->
   truncate_text (pre ++ PERIOD :: post) N
     = firstn (S (length pre)) (pre ++ PERIOD :: post) ++ TRUNCATION_SUFFIX
   /\ length (truncate_text (pre ++ PERIOD :: post) N) = length pre + 42)
  /\ ((10 * Z.of_nat (length pre) < 7 * Z.of_nat N)%Z ->
      truncate_text (pre ++ PERIOD :: post) N
        = firstn N (pre ++ PERIOD :: post) ++ TRUNCATION_SUFFIX).
Proof.
  intros Hlong Hpos Hpre Hpost Hsmall Hne.
  assert (Hp : length pre < N) by lia.
  assert (Hother : forall c, In c [33%Z; 63%Z; NEWLINE] ->
            past_threshold (pre ++ PERIOD :: post) N c = false).
  { intros c Hc. unfold past_threshold.
    rewrite rfind_absent; [apply int_gt_float_neg; [lia|apply threshold_nonneg]|].
    intros Hin. apply In_firstn' in Hin. apply in_app_or in Hin.
    assert (Hb : In c break_chars) by (simpl in *; tauto).
    destruct Hin as [Hin|[Heq|Hin]].
    - exact (no_break_notin _ _ Hpre Hb Hin).
    - subst c. simpl in Hc. unfold PERIOD, NEWLINE in Hc. intuition discriminate.
    - exact (no_break_notin _ _ Hpost Hb Hin). }
  assert (Hr : rfind (firstn N (pre ++ PERIOD :: post)) PERIOD = Z.of_nat (length pre)).
  { rewrite firstn_single_period by exact Hp. apply rfind_last.
    intros Hin. apply In_firstn' in Hin.
    exact (no_break_notin post PERIOD Hpost ltac:(left; reflexivity) Hin). }
  pose proof (threshold_cmp N (Z.of_nat (length pre)) Hsmall Hne) as Hcmp.
  unfold truncate_text. destruct (Nat.leb_spec (length (pre ++ PERIOD :: post)) N) as [|_]; [lia|].
  split.
  - intros Hgt70.
    assert (Hgt : int_gt_float (Z.of_nat (length pre)) (threshold N) = true)
      by (rewrite Hcmp; apply Z.ltb_lt; exact Hgt70).
    change break_chars with (PERIOD :: [33%Z; 63%Z; NEWLINE]).
    cbn [truncate_loop]. rewrite Hr, Hgt.
    replace (Z.to_nat (Z.of_nat (length pre) + 1)) with (S (length pre)) by lia.
    split; [reflexivity|]. rewrite length_app, length_firstn, length_app.
    change (length TRUNCATION_SUFFIX) with 41. simpl length. lia.
  - intros Hlt70.
    assert (Hng : int_gt_float (Z.of_nat (length pre)) (threshold N) = false)
      by (rewrite Hcmp; apply Z.ltb_ge; lia).
    change break_chars with (PERIOD :: [33%Z; 63%Z; NEWLINE]).
    apply truncate_loop_none. constructor.
    + unfold past_threshold. rewrite Hr. exact Hng.
    + repeat constructor; apply Hother; simpl; auto.
Qed.

Lemma C8_truncate_single_period_witness :
  (100 < length (repeat 97%Z 74 ++ PERIOD :: repeat 97%Z 26)
   /\ 4 * length (repeat 97%Z 74) < 3 * 100
   /\ no_break (repeat 97%Z 74) /\ no_break (repeat 97%Z 26)
   /\ (Z.of_nat 100 < 2 ^ 48)%Z
   /\ (10 * Z.of_nat (length (repeat 97%Z 74)) <> 7 * Z.of_nat 100)%Z)
  /\ length (truncate_text (repeat 97%Z 74 ++ PERIOD :: repeat 97%Z 26) 100) = 74 + 42.
Proof.
  assert (H1 : 100 < length (repeat 97%Z 74 ++ PERIOD :: repeat 97%Z 26))
    by (rewrite length_app, !repeat_length; simpl; lia).
  assert (H2 : 4 * length (repeat 97%Z 74) < 3 * 100) by (rewrite repeat_length; lia).
  assert (H3 : no_break (repeat 97%Z 74))
    by (apply Forall_forall; intros c Hc; apply repeat_spec in Hc; subst c; simpl; intuition discriminate).
  assert (H4 : no_break (repeat 97%Z 26))
    by (apply Forall_forall; intros c Hc; apply repeat_spec in Hc; subst c; simpl; intuition discriminate).
  assert (H5 : (Z.of_nat 100 < 2 ^ 48)%Z) by (vm_compute; reflexivity).
  assert (H6 : (10 * Z.of_nat (length (repeat 97%Z 74)) <> 7 * Z.of_nat 100)%Z)
    by (rewrite repeat_length; vm_compute; discriminate).
  assert (H7 : (7 * Z.of_nat 100 < 10 * Z.of_nat (length (repeat 97%Z 74)))%Z)
    by (rewrite repeat_length; vm_compute; reflexivity).
  split; [auto 7|].
  destruct (C8_truncate_single_period (repeat 97%Z 74) (repeat 97%Z 26) 100 H1 H2 H3 H4 H5 H6)
    as [Ht _].
  destruct (Ht H7) as [_ Hl]. rewrite repeat_length in Hl. exact Hl.
Defined.

(** ** Usage counters *)

Definition counters_le (c c' : counters) : Prop :=
  (total_requests c <= total_requests c' /\ total_tokens c <= total_tokens c')%Z.

Definition usage_nonneg (a : attempt) : Prop :=
  forall p q ch, a = AResponse (UsageDict p q) ch ->
    (0 <= opt_default 0 p /\ 0 <= opt_default 0 q)%Z.

Lemma attempt_body_mono a c : usage_nonneg a -> counters_le c (snd (attempt_body a c)).
Proof.
  intros Hu. unfold counters_le.
  destruct a as [| |usage choices]; cbn [attempt_body]; [simpl; lia|simpl; lia|].
  destruct usage as [|p q|].
  - destruct choices; simpl; lia.
  - destruct (Hu p q choices eq_refl) as [Hp Hq].
    destruct (token_cost _); [destruct choices|]; simpl; lia.
  - simpl; lia.
Qed.

Lemma retry_loop_mono fuel : forall rc max msgs outcome c,
  (forall i, usage_nonneg (outcome i)) ->
  counters_le c (snd (fst (retry_loop fuel rc max msgs outcome c))).
Proof.
  unfold counters_le.
  induction fuel as [|fuel IH]; intros rc max msgs outcome c Hu; simpl; [lia|].
  destruct (Nat.ltb rc max); [|simpl; lia].
  pose proof (attempt_body_mono (outcome rc) c (Hu rc)) as Hm. unfold counters_le in Hm.
  destruct (attempt_body (outcome rc) c) as [r c'] eqn:Hb. simpl in Hm.
  destruct r as [[]|v]; simpl; try lia.
  destruct (Nat.leb max (S rc)); simpl; [lia|].
  specialize (IH (S rc) max msgs outcome c' Hu).
  destruct (retry_loop fuel (S rc) max msgs outcome c') as [[r' c''] evs]. simpl in *. lia.
Qed.

(** [estimated_cost] never decreases (on the exact values) and stays a
    non-negative float: every amount added is non-negative. *)
Definition cost_grows (c c' : counters) : Prop :=
  float_le (estimated_cost c) (estimated_cost c') = true
  /\ nonneg_binary64 (estimated_cost c') = true.

Lemma attempt_body_cost a c :
  usage_nonneg a -> nonneg_binary64 (estimated_cost c) = true ->
  cost_grows c (snd (attempt_body a c)).
Proof.
  intros Hu Hc. unfold cost_grows.
  assert (Hrefl : float_le (estimated_cost c) (estimated_cost c) = true /\
                  nonneg_binary64 (estimated_cost c) = true)
    by (split; [apply float_le_refl|]; exact Hc).
  destruct a as [| |usage choices]; cbn [attempt_body]; [exact Hrefl|exact Hrefl|].
  destruct usage as [|p q|].
  - assert (H := fadd_mono (estimated_cost c) REQUEST_COST Hc REQUEST_COST_nonneg).
    destruct choices; exact H.
  - destruct (Hu p q choices eq_refl) as [Hp Hq].
    destruct (token_cost (opt_default 0 p + opt_default 0 q)%Z) as [tc|] eqn:Htc;
      [|exact Hrefl].
    pose proof (token_cost_nonneg (opt_default 0 p + opt_default 0 q)%Z tc ltac:(lia) Htc) as Htc'.
    destruct (fadd_mono REQUEST_COST tc REQUEST_COST_nonneg Htc') as [_ Hsum].
    assert (H := fadd_mono (estimated_cost c) (fadd REQUEST_COST tc) Hc Hsum).
    destruct choices; exact H.
  - exact Hrefl.
Qed.

Lemma gpr_cost msgs max outcome c :
  (forall i, usage_nonneg (outcome i)) -> nonneg_binary64 (estimated_cost c) = true ->
  cost_grows c (snd (fst (get_perplexity_response msgs max outcome c))).
Proof.
  intros Hu Hc.
  assert (Hrefl : cost_grows c c) by (split; [apply float_le_refl|]; exact Hc).
  unfold get_perplexity_response.
  destruct (Nat.leb_spec (length msgs) 1); [exact Hrefl|].
  destruct max as [|max']; [exact Hrefl|].
  destruct (retry_loop_shape (S max') 0 (S max') msgs outcome c) as [n [_ [_ [_ Hr]]]];
    [lia|lia|].
  rewrite Hr. apply attempt_body_cost; [apply Hu|exact Hc].
Qed.

Definition two_messages_success (u : usage_field) : nat -> attempt :=
  fun _ => AResponse u (ChoicesContent [98%Z]).

(** C9 (as stated, refuted): the reported usage is added unchecked, so a
    response reporting negative token counts lowers [total_tokens] and
    [estimated_cost]. *)
Lemma C9_negative_usage_decreases :
  let '(_, c', _) := get_perplexity_response two_messages MAX_RETRIES
                       (two_messages_success (UsageDict (Some (-1000000)%Z) (Some 0%Z)))
                       initial_counters in
  (total_tokens c' < total_tokens initial_counters)%Z
  /\ SFltb (estimated_cost c') (estimated_cost initial_counters) = true.
Proof. vm_compute. split; [reflexivity|reflexivity]. Qed.

(** C9 (amended): when the API answers (after [k] timeouts) with a
    response reporting usage 100 prompt and 50 completion tokens,
    [total_requests] grows by 1, [total_tokens] by 150, and
    [estimated_cost] becomes the binary64 sum [estimated_cost +
    (REQUEST_COST + tc)] where [tc] is the value of
    [150 / 1_000_000 * TOKEN_COST_PER_MILLION]; without reported usage,
    [total_requests] grows by 1, [total_tokens] is unchanged and
    [REQUEST_COST] is added to [estimated_cost]; when every reported token
    count is non-negative, none of [total_requests], [total_tokens] and
    [estimated_cost] decreases (the cost compared on exact values, from a
    non-negative cost such as the initial 0.0). *)
Theorem C9_usage_counters (messages : list message) (outcome : nat -> attempt)
    (c : counters) (s : str) (k : nat) :
  1 < length messages ->
  k < MAX_RETRIES ->
  (forall i, i < k -> outcome i = ATimeout) ->
  (outcome k = AResponse (UsageDict (Some 100%Z) (Some 50%Z)) (ChoicesContent s) ->
   exists tc, token_cost 150 = Some tc
   /\ fst (get_perplexity_response messages MAX_RETRIES outcome c)
      = (PyReturn (Some s),
         mk_counters (total_requests c + 1) (total_tokens c + 150)
           (fadd (estimated_cost c) (fadd REQUEST_COST tc))))
  /\ (outcome k = AResponse UsageAbsent (ChoicesContent s) ->
      fst (get_perplexity_response messages MAX_RETRIES outcome c)
      = (PyReturn (Some s),
         mk_counters (total_requests c + 1) (total_tokens c)
           (fadd (estimated_cost c) REQUEST_COST)))
  /\ ((forall i, usage_nonneg (outcome i)) ->
      nonneg_binary64 (estimated_cost c) = true ->
      let c' := snd (fst (get_perplexity_response messages MAX_RETRIES outcome c)) in
      counters_le c c'
      /\ float_le (estimated_cost c) (estimated_cost c') = true
      /\ nonneg_binary64 (estimated_cost c') = true).
Proof.
  intros Hl Hk Hto.
  assert (Hshape : outcome k <> ATimeout ->
                   fst (get_perplexity_response messages MAX_RETRIES outcome c)
                   = (exit_result (fst (attempt_body (outcome k) c)), snd (attempt_body (outcome k) c))).
  { intros Hnt. rewrite (gpr_after_timeouts messages MAX_RETRIES outcome c k Hl Hk Hto).
    destruct (retry_loop_shape (S (MAX_RETRIES - S k)) k MAX_RETRIES messages outcome c)
      as [n [Hn [Hon [Hlast Hr]]]]; [lia|lia|].
    rewrite Hr. cbn [fst].
    destruct n as [|n]; [rewrite Nat.add_0_r; reflexivity|].
    exfalso. apply Hnt, Hon. lia. }
  split; [|split].
  - intros Ho. rewrite Hshape, Ho by (rewrite Ho; discriminate).
    eexists. split; [reflexivity|]. reflexivity.
  - intros Ho. rewrite Hshape, Ho by (rewrite Ho; discriminate). reflexivity.
  - intros Hu Hc. cbv zeta. split.
    + unfold get_perplexity_response.
      destruct (Nat.leb_spec (length messages) 1); [lia|].
      apply retry_loop_mono. exact Hu.
    + apply gpr_cost; assumption.
Qed.

Lemma C9_usage_counters_witness :
  (1 < length two_messages /\ 0 < MAX_RETRIES
   /\ (forall i, i < 0 -> two_messages_success (UsageDict (Some 100%Z) (Some 50%Z)) i = ATimeout))
  /\ exists tc, token_cost 150 = Some tc
     /\ fst (get_perplexity_response two_messages MAX_RETRIES
               (two_messages_success (UsageDict (Some 100%Z) (Some 50%Z))) initial_counters)
        = (PyReturn (Some [98%Z]),
           mk_counters (0 + 1)%Z (0 + 150)%Z
             (fadd (S754_zero false) (fadd REQUEST_COST tc))).
Proof.
  assert (H1 : 1 < length two_messages) by (simpl; lia).
  assert (H2 : 0 < MAX_RETRIES) by (unfold MAX_RETRIES; lia).
  assert (H3 : forall i, i < 0 -> two_messages_success (UsageDict (Some 100%Z) (Some 50%Z)) i
                                   = ATimeout) by (intros i Hi; lia).
  split; [auto|].
  destruct (C9_usage_counters two_messages (two_messages_success (UsageDict (Some 100%Z) (Some 50%Z)))
              initial_counters [98%Z] 0 H1 H2 H3) as [Hc _].
  exact (Hc eq_refl).
Defined.

(** * Further properties of the client, the truncation, the history and the canned replies *)

(** Every response in every message update reports non-negative usage. *)
Definition cmds_usage_nonneg (cmds : list command) : Prop :=
  Forall (fun cmd => match cmd with
                     | CmdMessage _ outcome _ => forall i, usage_nonneg (outcome i)
                     | _ => True
                     end) cmds.

Definition canned_replies : list str :=
  [GOIDA_REPLY; IDENTITY_REPLY_RU; IDENTITY_REPLY_EN; utf8 "Привет!"; utf8 "Hello!";
   utf8 "До свидания!"; utf8 "Goodbye!"; utf8 "Пожалуйста."; utf8 "You're welcome.";
   utf8 "Ок."; utf8 "Okay."; utf8 "Понятно."; utf8 "Understood."; utf8 "Noted."].

Definition is_ascii (s : str) : Prop := Forall (fun c => (c < 128)%Z) s.

(** ** Retry loop lemmas *)

Lemma backoff_posts msgs rc n m : In (EvPost m) (backoff msgs rc n) -> m = msgs.
Proof.
  revert rc; induction n as [|n IH]; intros rc; simpl; [intros []|].
  intros [H|[H|H]]; [injection H; auto|discriminate|exact (IH (S rc) H)].
Qed.

Lemma posts_backoff msgs rc n : posts (backoff msgs rc n ++ [EvPost msgs]) = S n.
Proof.
  unfold posts. revert rc; induction n as [|n IH]; intros rc; simpl; [reflexivity|].
  f_equal. apply IH.
Qed.

Lemma sleeps_backoff msgs rc n :
  sleeps (backoff msgs rc n ++ [EvPost msgs]) = map (fun i => 2 ^ Z.of_nat (S i))%Z (seq rc n).
Proof.
  unfold sleeps. revert rc; induction n as [|n IH]; intros rc; simpl; [reflexivity|].
  f_equal. apply IH.
Qed.

Lemma gpr_posts msgs max outcome c :
  (forall m, In (EvPost m) (snd (get_perplexity_response msgs max outcome c)) -> m = msgs)
  /\ posts (snd (get_perplexity_response msgs max outcome c)) <= max.
Proof.
  unfold get_perplexity_response.
  destruct (Nat.leb_spec (length msgs) 1).
  - simpl. split; [intros m []|unfold posts; simpl; lia].
  - destruct max as [|max'].
    + simpl. split; [intros m []|unfold posts; simpl; lia].
    + destruct (retry_loop_shape (S max') 0 (S max') msgs outcome c) as [n [Hn [_ [_ Heq]]]];
        [lia|lia|].
      rewrite Heq. simpl snd. split.
      * intros m Hm. apply in_app_or in Hm as [Hm|[Hm|[]]].
        -- exact (backoff_posts msgs 0 n m Hm).
        -- injection Hm; auto.
      * rewrite posts_backoff. lia.
Qed.

Lemma retry_loop_requests fuel : forall rc max msgs outcome c,
  let c' := snd (fst (retry_loop fuel rc max msgs outcome c)) in
  total_requests c' = total_requests c \/ total_requests c' = (total_requests c + 1)%Z.
Proof.
  induction fuel as [|fuel IH]; intros rc max msgs outcome c; cbv zeta; simpl; [left; reflexivity|].
  destruct (Nat.ltb rc max); [|left; reflexivity].
  assert (Ha : total_requests (snd (attempt_body (outcome rc) c)) = total_requests c
               \/ total_requests (snd (attempt_body (outcome rc) c)) = (total_requests c + 1)%Z).
  { destruct (outcome rc) as [| |[|p q|] ch]; cbn [attempt_body];
      [left; reflexivity|left; reflexivity| | |right; reflexivity].
    - right. destruct ch; reflexivity.
    - right. destruct (token_cost _); [destruct ch|]; reflexivity. }
  destruct (attempt_body (outcome rc) c) as [[[]|v] c'] eqn:Hb; cbn [snd] in Ha; simpl;
    try exact Ha.
  destruct (attempt_body_timeout _ _ _ Hb) as [_ ->].
  destruct (Nat.leb max (S rc)); [left; reflexivity|].
  specialize (IH (S rc) max msgs outcome c). cbv zeta in IH.
  destruct (retry_loop fuel (S rc) max msgs outcome c) as [[r' c''] evs]. exact IH.
Qed.

Lemma gpr_requests_step msgs max outcome c :
  let c' := snd (fst (get_perplexity_response msgs max outcome c)) in
  total_requests c' = total_requests c \/ total_requests c' = (total_requests c + 1)%Z.
Proof.
  unfold get_perplexity_response. destruct (Nat.leb (length msgs) 1).
  - left; reflexivity.
  - apply retry_loop_requests.
Qed.

Lemma gpr_mono msgs max outcome c :
  (forall i, usage_nonneg (outcome i)) ->
  counters_le c (snd (fst (get_perplexity_response msgs max outcome c))).
Proof.
  intros Hu. unfold get_perplexity_response. destruct (Nat.leb (length msgs) 1).
  - unfold counters_le; simpl; lia.
  - apply retry_loop_mono. exact Hu.
Qed.

(** After [k] timeouts, an attempt that is not a timeout ends the loop. *)
Lemma gpr_answer_after_timeouts msgs max outcome c k :
  1 < length msgs -> k < max -> (forall i, i < k -> outcome i = ATimeout) ->
  outcome k <> ATimeout ->
  get_perplexity_response msgs max outcome c
  = (exit_result (fst (attempt_body (outcome k) c)), snd (attempt_body (outcome k) c),
     backoff msgs 0 k ++ [EvPost msgs]).
Proof.
  intros Hl Hk Ho Hnt. rewrite (gpr_after_timeouts msgs max outcome c k Hl Hk Ho).
  destruct (retry_loop_shape (S (max - S k)) k max msgs outcome c)
    as [n [Hn [Hon [_ Hr]]]]; [lia|lia|].
  rewrite Hr. destruct n as [|n]; [rewrite Nat.add_0_r; reflexivity|].
  exfalso. apply Hnt, Hon. lia.
Qed.

(** ** History lemmas *)

Lemma check_limits_cases h u h' :
  check_limits h u = Some h' ->
  estimate_tokens h' <= MAX_HISTORY_TOKENS_ESTIMATE
  /\ ((h' = candidate h u /\ length (candidate h u) <= MAX_HISTORY_MESSAGES + 1)
      \/ (MAX_HISTORY_MESSAGES + 1 < length (candidate h u) /\ h' = trim (candidate h u))).
Proof.
  rewrite check_limits_unfold. cbv zeta.
  destruct (Nat.ltb_spec MAX_HISTORY_TOKENS_ESTIMATE (estimate_tokens (candidate h u)));
    [discriminate|].
  destruct (Nat.ltb_spec (MAX_HISTORY_MESSAGES + 1) (length (candidate h u))).
  - destruct (Nat.ltb_spec MAX_HISTORY_TOKENS_ESTIMATE (estimate_tokens (trim (candidate h u))));
      [discriminate|].
    intros Heq; injection Heq as <-. split; [lia|right; split; [lia|reflexivity]].
  - intros Heq; injection Heq as <-. split; [lia|left; split; [reflexivity|lia]].
Qed.

Lemma trim_length p :
  MAX_HISTORY_MESSAGES + 1 < length p -> length (trim p) = MAX_HISTORY_MESSAGES + 1.
Proof.
  intros Hl. unfold trim. rewrite length_app, last_n_length by lia.
  rewrite length_firstn. lia.
Qed.

Lemma trim_suffix p pre sfx :
  MAX_HISTORY_MESSAGES + 1 < length p -> p = pre ++ sfx -> length sfx <= MAX_HISTORY_MESSAGES ->
  exists pre', trim p = pre' ++ sfx.
Proof.
  intros Hl -> Hs. unfold trim, last_n. rewrite skipn_app. rewrite length_app in *.
  replace (length pre + length sfx - MAX_HISTORY_MESSAGES - length pre) with 0 by lia.
  exists (firstn 1 (pre ++ sfx) ++ skipn (length pre + length sfx - MAX_HISTORY_MESSAGES) pre).
  rewrite <- app_assoc. reflexivity.
Qed.

(** What a committed history is made of. *)
Lemma check_limits_commit_facts h u h' :
  check_limits h u = Some h' ->
  length h' <= MAX_HISTORY_MESSAGES + 1
  /\ estimate_tokens h' <= MAX_HISTORY_TOKENS_ESTIMATE
  /\ hd_error h' = hd_error (candidate h u)
  /\ (forall pre sfx, candidate h u = pre ++ sfx -> length sfx <= MAX_HISTORY_MESSAGES ->
        exists pre', h' = pre' ++ sfx).
Proof.
  intros Hc. destruct (check_limits_cases _ _ _ Hc) as [Hest [[-> Hl]|[Hl ->]]].
  - split; [lia|]. split; [exact Hest|]. split; [reflexivity|].
    intros pre sfx Heq _. exists pre. exact Heq.
  - split; [rewrite trim_length; lia|]. split; [exact Hest|]. split.
    + unfold trim. destruct (candidate h u) as [|m p]; reflexivity.
    + intros pre sfx Heq Hs. exact (trim_suffix _ pre sfx Hl Heq Hs).
Qed.

Lemma committed_ends_with_user h u h' :
  check_limits h u = Some h' -> exists pre, h' = pre ++ [mk_message User u].
Proof.
  intros Hc. destruct (check_limits_commit_facts _ _ _ Hc) as [_ [_ [_ Hs]]].
  apply (Hs h [mk_message User u] eq_refl). simpl. unfold MAX_HISTORY_MESSAGES. lia.
Qed.

(** ** handle_message lemmas *)

Lemma handle_message_stored local_reply outcome u s :
  chat_history (fst (handle_message local_reply outcome u s)) = Some [SYSTEM_PROMPT_MESSAGE]
  \/ exists h', check_limits (stored_or_seed s) u = Some h'
       /\ (chat_history (fst (handle_message local_reply outcome u s)) = Some h'
           \/ exists rt, chat_history (fst (handle_message local_reply outcome u s))
                         = Some (h' ++ [mk_message Assistant rt])).
Proof.
  unfold handle_message. fold (stored_or_seed s).
  destruct (check_limits (stored_or_seed s) u) as [h'|]; [right|left; reflexivity].
  exists h'. split; [reflexivity|].
  destruct (local_reply u) as [canned|].
  - cbn [fst chat_history]. destruct (startswith SORRY_PREFIX canned);
      [left; reflexivity|right; exists canned; reflexivity].
  - destruct (get_perplexity_response h' MAX_RETRIES outcome (usage s)) as [[r c] evs].
    destruct r as [[rt|]| |e]; cbn [fst chat_history].
    + destruct (startswith SORRY_PREFIX rt); [left; reflexivity|right; exists rt; reflexivity].
    + left; reflexivity.
    + left; reflexivity.
    + left; reflexivity.
Qed.

Lemma handle_message_requests_step local_reply outcome u s :
  let c' := usage (fst (handle_message local_reply outcome u s)) in
  total_requests c' = total_requests (usage s)
  \/ total_requests c' = (total_requests (usage s) + 1)%Z.
Proof.
  cbv zeta. unfold handle_message. fold (stored_or_seed s).
  destruct (check_limits (stored_or_seed s) u) as [h'|]; [|left; reflexivity].
  destruct (local_reply u) as [canned|].
  - left. cbn [fst usage]. reflexivity.
  - pose proof (gpr_requests_step h' MAX_RETRIES outcome (usage s)) as H. cbv zeta in H.
    destruct (get_perplexity_response h' MAX_RETRIES outcome (usage s)) as [[r c] evs].
    destruct r as [[rt|]| |e]; exact H.
Qed.

Lemma handle_message_mono local_reply outcome u s :
  (forall i, usage_nonneg (outcome i)) ->
  counters_le (usage s) (usage (fst (handle_message local_reply outcome u s))).
Proof.
  intros Hu. unfold handle_message. fold (stored_or_seed s).
  destruct (check_limits (stored_or_seed s) u) as [h'|]; [|unfold counters_le; simpl; lia].
  destruct (local_reply u) as [canned|].
  - unfold counters_le. cbn [fst usage]. lia.
  - pose proof (gpr_mono h' MAX_RETRIES outcome (usage s) Hu) as H.
    destruct (get_perplexity_response h' MAX_RETRIES outcome (usage s)) as [[r c] evs].
    destruct r as [[rt|]| |e]; exact H.
Qed.

Lemma posts_wrap evs x : posts (EvTyping :: evs ++ [EvReply x]) = posts evs.
Proof. unfold posts. simpl. rewrite filter_app, length_app. simpl. lia. Qed.

Lemma in_wrap evs x m : In (EvPost m) (EvTyping :: evs ++ [EvReply x]) -> In (EvPost m) evs.
Proof.
  simpl. intros [H|H]; [discriminate|]. apply in_app_or in H as [H|[H|[]]]; [exact H|discriminate].
Qed.

(** ** String lemmas *)

Lemma startswith_spec p s : startswith p s = true <-> exists rest, s = p ++ rest.
Proof.
  revert s; induction p as [|c p IH]; intros s; simpl.
  - split; [intros _; exists s; reflexivity|reflexivity].
  - destruct s as [|d s].
    + split; [discriminate|intros [rest H]; discriminate].
    + rewrite andb_true_iff, Z.eqb_eq, IH. split.
      * intros [-> [rest ->]]. exists rest. reflexivity.
      * intros [rest H]. injection H as -> ->. split; [reflexivity|exists rest; reflexivity].
Qed.

Lemma contains_spec w q : contains w q = true <-> exists a b, q = a ++ w ++ b.
Proof.
  induction q as [|x q IH]; simpl contains.
  - destruct w as [|c w]; simpl.
    + split; [intros _; exists [], []; reflexivity|reflexivity].
    + split; [discriminate|]. intros [a [b H]]. destruct a; discriminate.
  - rewrite orb_true_iff, startswith_spec, IH. split.
    + intros [[rest ->]|[a [b ->]]]; [exists [], rest; reflexivity|exists (x :: a), b; reflexivity].
    + intros [a [b H]]. destruct a as [|y a].
      * left. exists b. exact H.
      * right. simpl in H. injection H as -> ->. exists a, b. reflexivity.
Qed.

Lemma contains_app_l w p rest : contains w p = true -> contains w (p ++ rest) = true.
Proof.
  rewrite !contains_spec. intros [a [b ->]]. exists a, (b ++ rest).
  rewrite <- !app_assoc. reflexivity.
Qed.

Lemma startswith_compat p p' q :
  startswith p q = true -> startswith p' q = true ->
  startswith p' p = true \/ startswith p p' = true.
Proof.
  intros Hp Hq. apply startswith_spec in Hp as [r1 ->].
  apply startswith_spec in Hq as [r2 H]. revert p' H.
  induction p as [|c p IH]; intros p' H; [right; reflexivity|].
  destruct p' as [|d p']; [left; reflexivity|].
  simpl in H. injection H as <- H. simpl. rewrite Z.eqb_refl. simpl. exact (IH p' H).
Qed.

Lemma startswith_exclusive p p' q :
  startswith p q = true -> startswith p' p = false -> startswith p p' = false ->
  startswith p' q = false.
Proof.
  intros Hp H1 H2. destruct (startswith p' q) eqn:Hq; [|reflexivity].
  destruct (startswith_compat _ _ _ Hp Hq); congruence.
Qed.

Lemma in_list_prefix p q l :
  startswith p q = true -> forallb (fun w => negb (startswith p w)) l = true ->
  in_list q l = false.
Proof.
  intros Hq Hl. unfold in_list. apply not_true_iff_false. intros Hex.
  apply existsb_exists in Hex as [w [Hw Heq]]. unfold str_eqb in Heq.
  destruct (list_eq_dec Z.eq_dec q w) as [<-|]; [|discriminate].
  rewrite forallb_forall in Hl. specialize (Hl q Hw). rewrite Hq in Hl. discriminate.
Qed.

Lemma any_in_true words w q : In w words -> contains w q = true -> any_in words q = true.
Proof. intros Hw Hc. unfold any_in. apply existsb_exists. exists w. auto. Qed.

Lemma contains_ascii w q :
  existsb (fun c => (128 <=? c)%Z) w = true -> is_ascii q -> contains w q = false.
Proof.
  intros Hw Hq. apply not_true_iff_false. intros Hc.
  apply existsb_exists in Hw as [c [Hcw Hc128]]. apply Z.leb_le in Hc128.
  apply contains_spec in Hc as [a [b ->]]. unfold is_ascii in Hq. rewrite Forall_forall in Hq.
  assert (Hin : In c (a ++ w ++ b)) by (apply in_or_app; right; apply in_or_app; left; exact Hcw).
  specialize (Hq c Hin). lia.
Qed.

Lemma any_in_ascii words q :
  forallb (existsb (fun c => (128 <=? c)%Z)) words = true -> is_ascii q -> any_in words q = false.
Proof.
  intros Hw Hq. unfold any_in. apply not_true_iff_false. intros Hex.
  apply existsb_exists in Hex as [w [Hin Hc]]. rewrite forallb_forall in Hw.
  rewrite (contains_ascii w q (Hw w Hin) Hq) in Hc. discriminate.
Qed.

Lemma is_ascii_of_bool s : forallb (fun c => (c <? 128)%Z) s = true -> is_ascii s.
Proof.
  intros H. unfold is_ascii. rewrite Forall_forall. intros c Hc.
  rewrite forallb_forall in H. apply Z.ltb_lt. exact (H c Hc).
Qed.

Lemma canned_in r : existsb (str_eqb r) canned_replies = true -> In r canned_replies.
Proof.
  intros H. apply existsb_exists in H as [w [Hw Heq]]. unfold str_eqb in Heq.
  destruct (list_eq_dec Z.eq_dec r w) as [->|]; [exact Hw|discriminate].
Qed.

Lemma local_responder_replies q r : local_responder q = Some r -> In r canned_replies.
Proof.
  unfold local_responder.
  repeat match goal with |- context [if ?b then _ else _] => destruct b end;
    intros H; try discriminate; injection H as <-; apply canned_in; vm_compute; reflexivity.
Qed.

Lemma canned_replies_ok r :
  In r canned_replies ->
  startswith SORRY_PREFIX r = false /\ truncate_text r MAX_OUTPUT_LENGTH = r.
Proof.
  intros H.
  assert (Hb : forallb (fun r => negb (startswith SORRY_PREFIX r)
                                 && Nat.leb (length r) MAX_OUTPUT_LENGTH) canned_replies = true)
    by (vm_compute; reflexivity).
  rewrite forallb_forall in Hb. specialize (Hb r H).
  apply andb_true_iff in Hb as [H1 H2]. split; [apply negb_true_iff, H1|].
  unfold truncate_text. rewrite H2. reflexivity.
Qed.

(** The exact-match branches and the [startswith("hello")] test fail on a
    query that starts with [p]. *)
Lemma exact_branches_false p q :
  startswith p q = true ->
  forallb (fun w => negb (startswith p w))
    (GREETINGS ++ FAREWELLS ++ THANKS ++ AFFIRMATIONS ++ NEGATIONS) = true ->
  startswith (utf8 "hello") p = false -> startswith p (utf8 "hello") = false ->
  in_list q GREETINGS = false /\ startswith (utf8 "hello") q = false
  /\ in_list q FAREWELLS = false /\ in_list q THANKS = false
  /\ in_list q AFFIRMATIONS = false /\ in_list q NEGATIONS = false.
Proof.
  intros Hp Hl H1 H2. rewrite !forallb_app in Hl.
  do 4 (apply andb_true_iff in Hl as [? Hl]).
  repeat split; try (eapply in_list_prefix; eassumption).
  exact (startswith_exclusive _ _ _ Hp H1 H2).
Qed.

(** ** Further properties *)

(** X1: with at most one message (the system prompt alone), the client
    answers "I need a message from you to respond!" without any POST and
    leaves the counters unchanged. *)
Theorem gpr_short_history (messages : list message) (max_retries : nat)
    (outcome : nat -> attempt) (c : counters) :
  length messages <= 1 ->
  get_perplexity_response messages max_retries outcome c
  = (PyReturn (Some NEED_MESSAGE_MSG), c, []).
Proof.
  intros Hl. unfold get_perplexity_response.
  destruct (Nat.leb_spec (length messages) 1); [reflexivity|lia].
Qed.

Lemma gpr_short_history_witness :
  length [SYSTEM_PROMPT_MESSAGE] <= 1
  /\ get_perplexity_response [SYSTEM_PROMPT_MESSAGE] MAX_RETRIES (fun _ => ARequestError)
       initial_counters = (PyReturn (Some NEED_MESSAGE_MSG), initial_counters, []).
Proof.
  assert (H : length [SYSTEM_PROMPT_MESSAGE] <= 1) by (simpl; lia).
  split; [exact H|].
  exact (gpr_short_history [SYSTEM_PROMPT_MESSAGE] MAX_RETRIES (fun _ => ARequestError)
           initial_counters H).
Defined.

(** X2: with [max_retries = 0] the while loop never runs and the client
    returns None (no string), without any POST. *)
Theorem gpr_zero_retries (messages : list message) (outcome : nat -> attempt) (c : counters) :
  1 < length messages ->
  get_perplexity_response messages 0 outcome c = (PyReturn None, c, []).
Proof.
  intros Hl. unfold get_perplexity_response.
  destruct (Nat.leb_spec (length messages) 1); [lia|reflexivity].
Qed.

Lemma gpr_zero_retries_witness :
  1 < length two_messages
  /\ get_perplexity_response two_messages 0 (fun _ => ATimeout) initial_counters
     = (PyReturn None, initial_counters, []).
Proof.
  assert (H : 1 < length two_messages) by (simpl; lia).
  split; [exact H|]. exact (gpr_zero_retries two_messages (fun _ => ATimeout) initial_counters H).
Defined.

(** The outcomes used by the witnesses below: a timeout, then [a]. *)
Definition timeout_then (a : attempt) : nat -> attempt :=
  fun i => match i with O => ATimeout | S _ => a end.



(** X4: a transport error (any RequestException other than a timeout) is
    not retried: after [k] timeouts it returns the generic error string at
    once, with the counters unchanged. *)
Theorem gpr_request_error (messages : list message) (max_retries : nat)
    (outcome : nat -> attempt) (c : counters) (k : nat) :
  1 < length messages -> k < max_retries ->
  (forall i, i < k -> outcome i = ATimeout) ->
  outcome k = ARequestError ->
  get_perplexity_response messages max_retries outcome c
  = (PyReturn (Some REQUEST_ERROR_MSG), c, backoff messages 0 k ++ [EvPost messages]).
Proof.
  intros Hl Hk Ho Hok. rewrite (gpr_after_timeouts messages max_retries outcome c k Hl Hk Ho).
  cbn [retry_loop]. destruct (Nat.ltb_spec k max_retries) as [_|]; [|lia].
  rewrite Hok. reflexivity.
Qed.

Lemma gpr_request_error_witness :
  (1 < length two_messages /\ 1 < MAX_RETRIES
   /\ (forall i, i < 1 -> timeout_then ARequestError i = ATimeout)
   /\ timeout_then ARequestError 1 = ARequestError)
  /\ get_perplexity_response two_messages MAX_RETRIES (timeout_then ARequestError) initial_counters
     = (PyReturn (Some REQUEST_ERROR_MSG), initial_counters,
        backoff two_messages 0 1 ++ [EvPost two_messages]).
Proof.
  assert (H1 : 1 < length two_messages) by (simpl; lia).
  assert (H2 : 1 < MAX_RETRIES) by (unfold MAX_RETRIES; lia).
  assert (H3 : forall i, i < 1 -> timeout_then ARequestError i = ATimeout)
    by (intros [|i] Hi; [reflexivity|lia]).
  assert (H4 : timeout_then ARequestError 1 = ARequestError) by reflexivity.
  split; [auto|].
  exact (gpr_request_error two_messages MAX_RETRIES (timeout_then ARequestError)
           initial_counters 1 H1 H2 H3 H4).
Defined.

(** The cost of the reported usage is computed without an exception:
    "usage" is absent, or a dict whose token sum divided by 1_000_000
    does not overflow a float. *)
Definition token_cost_ok (u : usage_field) : bool :=
  match u with
  | UsageAbsent => true
  | UsageDict p q =>
      match token_cost (opt_default 0 p + opt_default 0 q)%Z with
      | Some _ => true
      | None => false
      end
  | UsageNotDict => false
  end.

(** X5: a response without [choices[0].message.content] (a missing key or
    an empty [choices]) whose usage is absent or costed without an
    exception returns the parsing-error string, but is counted exactly
    like a successful response with the same usage: one more request, its
    tokens and its cost. *)
Theorem gpr_parse_error_counted (messages : list message) (max_retries : nat)
    (outcome : nat -> attempt) (c : counters) (k : nat) (u : usage_field) (ch : choices_field) :
  1 < length messages -> k < max_retries ->
  (forall i, i < k -> outcome i = ATimeout) ->
  outcome k = AResponse u ch -> token_cost_ok u = true ->
  ch = ChoicesMissing \/ ch = ChoicesEmpty ->
  fst (fst (get_perplexity_response messages max_retries outcome c)) = PyReturn (Some PARSE_ERROR_MSG)
  /\ total_requests (snd (fst (get_perplexity_response messages max_retries outcome c)))
     = (total_requests c + 1)%Z
  /\ forall s, snd (fst (get_perplexity_response messages max_retries outcome c))
               = snd (attempt_body (AResponse u (ChoicesContent s)) c).
Proof.
  intros Hl Hk Ho Hok Hu Hch.
  rewrite (gpr_answer_after_timeouts messages max_retries outcome c k Hl Hk Ho)
    by (rewrite Hok; discriminate).
  rewrite Hok. destruct u as [|p q|]; [| |discriminate]; cbn [attempt_body token_cost_ok] in *.
  - destruct Hch as [->| ->]; (split; [reflexivity|split; [reflexivity|intros s; reflexivity]]).
  - destruct (token_cost _); [|discriminate].
    destruct Hch as [->| ->]; (split; [reflexivity|split; [reflexivity|intros s; reflexivity]]).
Qed.

Lemma gpr_parse_error_counted_witness :
  (1 < length two_messages /\ 1 < MAX_RETRIES
   /\ (forall i, i < 1 -> timeout_then (AResponse UsageAbsent ChoicesEmpty) i = ATimeout)
   /\ timeout_then (AResponse UsageAbsent ChoicesEmpty) 1 = AResponse UsageAbsent ChoicesEmpty
   /\ token_cost_ok UsageAbsent = true
   /\ (ChoicesEmpty = ChoicesMissing \/ ChoicesEmpty = ChoicesEmpty))
  /\ fst (fst (get_perplexity_response two_messages MAX_RETRIES
                 (timeout_then (AResponse UsageAbsent ChoicesEmpty)) initial_counters))
     = PyReturn (Some PARSE_ERROR_MSG).
Proof.
  assert (H1 : 1 < length two_messages) by (simpl; lia).
  assert (H2 : 1 < MAX_RETRIES) by (unfold MAX_RETRIES; lia).
  assert (H3 : forall i, i < 1 -> timeout_then (AResponse UsageAbsent ChoicesEmpty) i = ATimeout)
    by (intros [|i] Hi; [reflexivity|lia]).
  assert (H4 : timeout_then (AResponse UsageAbsent ChoicesEmpty) 1
               = AResponse UsageAbsent ChoicesEmpty) by reflexivity.
  assert (H5 : token_cost_ok UsageAbsent = true) by reflexivity.
  assert (H6 : ChoicesEmpty = ChoicesMissing \/ ChoicesEmpty = ChoicesEmpty) by (right; reflexivity).
  split; [auto 7|].
  exact (proj1 (gpr_parse_error_counted two_messages MAX_RETRIES
                  (timeout_then (AResponse UsageAbsent ChoicesEmpty)) initial_counters 1
                  UsageAbsent ChoicesEmpty H1 H2 H3 H4 H5 H6)).
Defined.

(** X6: a "usage" field that is not a dict makes [.get] raise after
    [total_requests] was incremented: the client returns the
    unexpected-error string with one more request counted and the tokens
    and cost unchanged, whatever the choices. *)
Theorem gpr_usage_not_dict (messages : list message) (max_retries : nat)
    (outcome : nat -> attempt) (c : counters) (k : nat) (ch : choices_field) :
  1 < length messages -> k < max_retries ->
  (forall i, i < k -> outcome i = ATimeout) ->
  outcome k = AResponse UsageNotDict ch ->
  fst (get_perplexity_response messages max_retries outcome c)
  = (PyReturn (Some UNEXPECTED_MSG),
     mk_counters (total_requests c + 1) (total_tokens c) (estimated_cost c)).
Proof.
  intros Hl Hk Ho Hok. rewrite (gpr_after_timeouts messages max_retries outcome c k Hl Hk Ho).
  cbn [retry_loop]. destruct (Nat.ltb_spec k max_retries) as [_|]; [|lia].
  rewrite Hok. reflexivity.
Qed.

Lemma gpr_usage_not_dict_witness :
  (1 < length two_messages /\ 1 < MAX_RETRIES
   /\ (forall i, i < 1 -> timeout_then (AResponse UsageNotDict (ChoicesContent [98%Z])) i = ATimeout)
   /\ timeout_then (AResponse UsageNotDict (ChoicesContent [98%Z])) 1
      = AResponse UsageNotDict (ChoicesContent [98%Z]))
  /\ fst (get_perplexity_response two_messages MAX_RETRIES
            (timeout_then (AResponse UsageNotDict (ChoicesContent [98%Z]))) initial_counters)
     = (PyReturn (Some UNEXPECTED_MSG),
        mk_counters (total_requests initial_counters + 1) (total_tokens initial_counters)
          (estimated_cost initial_counters)).
Proof.
  assert (H1 : 1 < length two_messages) by (simpl; lia).
  assert (H2 : 1 < MAX_RETRIES) by (unfold MAX_RETRIES; lia).
  assert (H3 : forall i, i < 1 -> timeout_then (AResponse UsageNotDict (ChoicesContent [98%Z])) i
                                   = ATimeout) by (intros [|i] Hi; [reflexivity|lia]).
  assert (H4 : timeout_then (AResponse UsageNotDict (ChoicesContent [98%Z])) 1
               = AResponse UsageNotDict (ChoicesContent [98%Z])) by reflexivity.
  split; [auto|].
  exact (gpr_usage_not_dict two_messages MAX_RETRIES
           (timeout_then (AResponse UsageNotDict (ChoicesContent [98%Z]))) initial_counters 1
           (ChoicesContent [98%Z]) H1 H2 H3 H4).
Defined.

(** X19: reported token counts so large that their sum divided by
    1_000_000 overflows a float raise [OverflowError] after
    [total_requests] and [total_tokens] were updated: the client returns
    the unexpected-error string with one more request and the tokens
    counted, and the cost unchanged, whatever the choices. *)
Theorem gpr_token_cost_overflow (messages : list message) (max_retries : nat)
    (outcome : nat -> attempt) (c : counters) (k : nat) (p q : option Z) (ch : choices_field) :
  1 < length messages -> k < max_retries ->
  (forall i, i < k -> outcome i = ATimeout) ->
  outcome k = AResponse (UsageDict p q) ch ->
  token_cost (opt_default 0 p + opt_default 0 q)%Z = None ->
  fst (get_perplexity_response messages max_retries outcome c)
  = (PyReturn (Some UNEXPECTED_MSG),
     mk_counters (total_requests c + 1) (total_tokens c + (opt_default 0 p + opt_default 0 q))
       (estimated_cost c)).
Proof.
  intros Hl Hk Ho Hok Htc.
  rewrite (gpr_answer_after_timeouts messages max_retries outcome c k Hl Hk Ho)
    by (rewrite Hok; discriminate).
  rewrite Hok. cbn [attempt_body]. rewrite Htc. reflexivity.
Qed.

(** [10 ** 400] prompt tokens. *)
Definition huge_usage : usage_field := UsageDict (Some (10 ^ 400)%Z) None.

Lemma gpr_token_cost_overflow_witness :
  (1 < length two_messages /\ 0 < MAX_RETRIES
   /\ (forall i, i < 0 -> two_messages_success huge_usage i = ATimeout)
   /\ two_messages_success huge_usage 0 = AResponse huge_usage (ChoicesContent [98%Z])
   /\ token_cost (opt_default 0 (Some (10 ^ 400)%Z) + opt_default 0 None)%Z = None)
  /\ fst (get_perplexity_response two_messages MAX_RETRIES (two_messages_success huge_usage)
            initial_counters)
     = (PyReturn (Some UNEXPECTED_MSG),
        mk_counters (total_requests initial_counters + 1)
          (total_tokens initial_counters + (opt_default 0 (Some (10 ^ 400)%Z) + opt_default 0 None))
          (estimated_cost initial_counters)).
Proof.
  assert (H1 : 1 < length two_messages) by (simpl; lia).
  assert (H2 : 0 < MAX_RETRIES) by (unfold MAX_RETRIES; lia).
  assert (H3 : forall i, i < 0 -> two_messages_success huge_usage i = ATimeout)
    by (intros i Hi; lia).
  assert (H4 : two_messages_success huge_usage 0 = AResponse huge_usage (ChoicesContent [98%Z]))
    by reflexivity.
  assert (H5 : token_cost (opt_default 0 (Some (10 ^ 400)%Z) + opt_default 0 None)%Z = None)
    by (vm_compute; reflexivity).
  split; [auto|].
  exact (gpr_token_cost_overflow two_messages MAX_RETRIES (two_messages_success huge_usage)
           initial_counters 0 (Some (10 ^ 400)%Z) None (ChoicesContent [98%Z]) H1 H2 H3 H4 H5).
Defined.

(** X7: for any outcomes, with at least two messages and [max_retries >= 1],
    the client returns a value and never raises; the value is None only
    when the response that ended the loop has a null content, and a value
    that is not a str only when that content is not a JSON string; its
    effects are [n + 1] POSTs of the same messages, [n < max_retries], with
    the sleeps 2^1, ..., 2^n between them and none after the last POST. *)
Theorem gpr_event_shape (messages : list message) (max_retries : nat)
    (outcome : nat -> attempt) (c : counters) :
  1 < length messages -> 0 < max_retries ->
  exists n r c', n < max_retries
    /\ get_perplexity_response messages max_retries outcome c
       = (r, c', backoff messages 0 n ++ [EvPost messages])
    /\ (forall e, r <> PyRaise e)
    /\ (r = PyReturn None -> exists u, outcome n = AResponse u ChoicesNull)
    /\ (r = PyReturnNonStr -> exists u, outcome n = AResponse u ChoicesNonString)
    /\ posts (backoff messages 0 n ++ [EvPost messages]) = S n
    /\ sleeps (backoff messages 0 n ++ [EvPost messages])
       = map (fun i => 2 ^ Z.of_nat (S i))%Z (seq 0 n).
Proof.
  intros Hl Hm. unfold get_perplexity_response.
  destruct (Nat.leb_spec (length messages) 1); [lia|].
  destruct (retry_loop_shape max_retries 0 max_retries messages outcome c)
    as [n [Hn [_ [_ Heq]]]]; [lia|lia|].
  rewrite Nat.add_0_l in Heq.
  exists n, (exit_result (fst (attempt_body (outcome n) c))), (snd (attempt_body (outcome n) c)).
  split; [lia|]. split; [exact Heq|].
  split; [|split; [|split; [|split; [apply posts_backoff|apply sleeps_backoff]]]].
  - intros e. destruct (fst (attempt_body (outcome n) c)) as [[]|[]]; discriminate.
  - destruct (fst (attempt_body (outcome n) c)) as [[]|[]] eqn:Hx; try discriminate.
    intros _. destruct (attempt_body_value _ _ _ Hx) as [u [ch [Ho Hch]]].
    exists u. rewrite Ho, Hch. reflexivity.
  - destruct (fst (attempt_body (outcome n) c)) as [[]|[]] eqn:Hx; try discriminate.
    intros _. destruct (attempt_body_value _ _ _ Hx) as [u [ch [Ho Hch]]].
    exists u. rewrite Ho, Hch. reflexivity.
Qed.

Lemma gpr_event_shape_witness :
  (1 < length two_messages /\ 0 < MAX_RETRIES)
  /\ exists n r c', n < MAX_RETRIES
    /\ get_perplexity_response two_messages MAX_RETRIES (fun _ => ATimeout) initial_counters
       = (r, c', backoff two_messages 0 n ++ [EvPost two_messages])
    /\ (forall e, r <> PyRaise e)
    /\ (r = PyReturn None -> exists u, (fun _ : nat => ATimeout) n = AResponse u ChoicesNull)
    /\ (r = PyReturnNonStr -> exists u, (fun _ : nat => ATimeout) n = AResponse u ChoicesNonString)
    /\ posts (backoff two_messages 0 n ++ [EvPost two_messages]) = S n
    /\ sleeps (backoff two_messages 0 n ++ [EvPost two_messages])
       = map (fun i => 2 ^ Z.of_nat (S i))%Z (seq 0 n).
Proof.
  assert (H1 : 1 < length two_messages) by (simpl; lia).
  assert (H2 : 0 < MAX_RETRIES) by (unfold MAX_RETRIES; lia).
  split; [auto|].
  exact (gpr_event_shape two_messages MAX_RETRIES (fun _ => ATimeout) initial_counters H1 H2).
Defined.

(** X8: one call of the client adds at most one request to
    [total_requests]: timeouts and transport errors count nothing, and the
    first counted response ends the loop. *)
Theorem gpr_at_most_one_request (messages : list message) (max_retries : nat)
    (outcome : nat -> attempt) (c : counters) :
  let c' := snd (fst (get_perplexity_response messages max_retries outcome c)) in
  total_requests c' = total_requests c \/ total_requests c' = (total_requests c + 1)%Z.
Proof. exact (gpr_requests_step messages max_retries outcome c). Qed.

(** X9: a text longer than [max_length] becomes a prefix of at most
    [max_length] characters followed by the truncation notice; the prefix
    is the whole of [text[:max_length]], or it ends with a break character
    ('.', '!', '?' or a newline) whose index lies past [0.7 * max_length]. *)
Theorem truncate_text_shape (text : str) (max_length : nat) :
  max_length < length text ->
  exists k, k <= max_length
    /\ truncate_text text max_length = firstn k text ++ TRUNCATION_SUFFIX
    /\ (k = max_length
        \/ (0 < k /\ In (nth (k - 1) text 0%Z) break_chars
            /\ int_gt_float (Z.of_nat (k - 1)) (threshold max_length) = true)).
Proof.
  intros Hn. unfold truncate_text.
  destruct (Nat.leb_spec (length text) max_length); [lia|].
  assert (Hgen : forall chars, incl chars break_chars ->
    exists k, k <= max_length
      /\ truncate_loop chars text max_length = firstn k text ++ TRUNCATION_SUFFIX
      /\ (k = max_length
          \/ (0 < k /\ In (nth (k - 1) text 0%Z) break_chars
              /\ int_gt_float (Z.of_nat (k - 1)) (threshold max_length) = true))).
  { induction chars as [|ch chars IH]; intros Hincl.
    - exists max_length. split; [lia|]. split; [reflexivity|left; reflexivity].
    - cbn [truncate_loop].
      destruct (int_gt_float (rfind (firstn max_length text) ch) (threshold max_length)) eqn:Hg.
      + destruct (break_cut text max_length ch Hn Hg) as [k [Hr [Hk [_ [Hnth [_ Hgt]]]]]].
        exists (S k). rewrite Hr.
        replace (Z.to_nat (Z.of_nat k + 1)) with (S k) by lia.
        split; [lia|]. split; [reflexivity|right].
        replace (S k - 1) with k by lia. rewrite Hnth.
        split; [lia|]. split; [apply Hincl; left; reflexivity|exact Hgt].
      + apply IH. intros x Hx. apply Hincl. right. exact Hx. }
  apply Hgen. intros x Hx. exact Hx.
Qed.

(** A text of 31 characters with a period at index 20. *)
Definition period_text : str := repeat 97%Z 20 ++ [46%Z] ++ repeat 97%Z 10.

Lemma truncate_text_shape_witness :
  25 < length period_text
  /\ exists k, k <= 25
    /\ truncate_text period_text 25 = firstn k period_text ++ TRUNCATION_SUFFIX
    /\ (k = 25
        \/ (0 < k /\ In (nth (k - 1) period_text 0%Z) break_chars
            /\ int_gt_float (Z.of_nat (k - 1)) (threshold 25) = true)).
Proof.
  assert (H : 25 < length period_text) by (vm_compute; lia).
  split; [exact H|]. exact (truncate_text_shape period_text 25 H).
Defined.

(** X10: a history committed by the limit check has at most
    [MAX_HISTORY_MESSAGES + 1] messages and at most
    [MAX_HISTORY_TOKENS_ESTIMATE] estimated tokens, keeps the first entry of
    the candidate, and keeps every suffix of the candidate of at most
    [MAX_HISTORY_MESSAGES] messages (in particular, it ends with the new
    user message). *)
Theorem check_limits_committed (history : list message) (user_message : str) (h' : list message) :
  check_limits history user_message = Some h' ->
  length h' <= MAX_HISTORY_MESSAGES + 1
  /\ estimate_tokens h' <= MAX_HISTORY_TOKENS_ESTIMATE
  /\ hd_error h' = hd_error (candidate history user_message)
  /\ (forall pre sfx, candidate history user_message = pre ++ sfx ->
        length sfx <= MAX_HISTORY_MESSAGES -> exists pre', h' = pre' ++ sfx).
Proof. exact (check_limits_commit_facts history user_message h'). Qed.

Lemma check_limits_committed_witness :
  check_limits [SYSTEM_PROMPT_MESSAGE] [98%Z] = Some (candidate [SYSTEM_PROMPT_MESSAGE] [98%Z])
  /\ length (candidate [SYSTEM_PROMPT_MESSAGE] [98%Z]) <= MAX_HISTORY_MESSAGES + 1.
Proof.
  assert (H : check_limits [SYSTEM_PROMPT_MESSAGE] [98%Z]
              = Some (candidate [SYSTEM_PROMPT_MESSAGE] [98%Z])) by (vm_compute; reflexivity).
  split; [exact H|].
  exact (proj1 (check_limits_committed [SYSTEM_PROMPT_MESSAGE] [98%Z] _ H)).
Defined.

(** X11: whatever the state, the local reply and the API outcomes, a
    message update makes at most [MAX_RETRIES] POSTs, and every POSTed
    message list has at most [MAX_HISTORY_MESSAGES + 1] messages, at most
    [MAX_HISTORY_TOKENS_ESTIMATE] estimated tokens, and ends with the user's
    new message. *)
Theorem handle_message_requests (local_reply : str -> option str) (outcome : nat -> attempt)
    (u : str) (s : state) :
  (forall m, In (EvPost m) (snd (handle_message local_reply outcome u s)) ->
     length m <= MAX_HISTORY_MESSAGES + 1
     /\ estimate_tokens m <= MAX_HISTORY_TOKENS_ESTIMATE
     /\ exists pre, m = pre ++ [mk_message User u])
  /\ posts (snd (handle_message local_reply outcome u s)) <= MAX_RETRIES.
Proof.
  unfold handle_message. fold (stored_or_seed s).
  destruct (check_limits (stored_or_seed s) u) as [h'|] eqn:Hc.
  2: { cbn [snd]. split.
       - intros m [H|[H|[]]]; discriminate.
       - unfold posts, MAX_RETRIES. simpl. lia. }
  destruct (check_limits_commit_facts _ _ _ Hc) as [Hl [He _]].
  destruct (committed_ends_with_user _ _ _ Hc) as [pre Hpre].
  assert (Hgoal : forall evs x,
             (forall m, In (EvPost m) evs -> m = h') -> posts evs <= MAX_RETRIES ->
             (forall m, In (EvPost m) (EvTyping :: evs ++ [EvReply x]) ->
                length m <= MAX_HISTORY_MESSAGES + 1
                /\ estimate_tokens m <= MAX_HISTORY_TOKENS_ESTIMATE
                /\ exists pre, m = pre ++ [mk_message User u])
             /\ posts (EvTyping :: evs ++ [EvReply x]) <= MAX_RETRIES).
  { intros evs x Hm Hp. split.
    - intros m Hin. rewrite (Hm m (in_wrap evs x m Hin)). split; [exact Hl|split; [exact He|]].
      exists pre. exact Hpre.
    - rewrite posts_wrap. exact Hp. }
  destruct (local_reply u) as [canned|].
  - cbn [snd]. apply (Hgoal []); [intros m []|unfold posts, MAX_RETRIES; simpl; lia].
  - destruct (gpr_posts h' MAX_RETRIES outcome (usage s)) as [H1 H2].
    destruct (get_perplexity_response h' MAX_RETRIES outcome (usage s)) as [[r c] evs].
    cbn [snd] in H1, H2.
    destruct r as [[rt|]| |e]; cbn [snd]; apply Hgoal; assumption.
Qed.

(** X12: in every state reachable from the start of the process, a stored
    history has at most [MAX_HISTORY_MESSAGES + 2] entries: the committed
    history and at most one assistant reply. *)
Theorem run_history_length (cmds : list command) :
  match chat_history (run cmds initial_state) with
  | None => True
  | Some h => length h <= MAX_HISTORY_MESSAGES + 2
  end.
Proof.
  assert (Hstep : forall cmd s,
    match chat_history (step cmd s) with
    | None => True | Some h => length h <= MAX_HISTORY_MESSAGES + 2 end \/ step cmd s = s).
  { intros cmd s. destruct cmd as [| | | | |local_reply outcome text]; cbn [step chat_history];
      try (left; exact I); try (right; reflexivity).
    left. destruct (handle_message_stored local_reply outcome text s)
      as [->|[h' [Hc [->|[rt ->]]]]].
    - simpl. unfold MAX_HISTORY_MESSAGES. lia.
    - destruct (check_limits_commit_facts _ _ _ Hc) as [Hl _]. lia.
    - destruct (check_limits_commit_facts _ _ _ Hc) as [Hl _].
      rewrite length_app. simpl length. unfold MAX_HISTORY_MESSAGES in *. lia. }
  assert (Hrun : forall cmds s,
    match chat_history s with None => True | Some h => length h <= MAX_HISTORY_MESSAGES + 2 end ->
    match chat_history (run cmds s) with
    | None => True | Some h => length h <= MAX_HISTORY_MESSAGES + 2 end).
  { intros cmds'. induction cmds' as [|cmd cmds' IH]; intros s Hs; simpl; [exact Hs|].
    apply IH. destruct (Hstep cmd s) as [H| ->]; [exact H|exact Hs]. }
  apply Hrun. exact I.
Qed.

(** X13: over any sequence of updates, [total_requests] never decreases
    and grows by at most the number of text messages. *)
Theorem run_requests_bounded (cmds : list command) (s : state) :
  (total_requests (usage s) <= total_requests (usage (run cmds s))
   <= total_requests (usage s) + Z.of_nat (messages_in cmds))%Z.
Proof.
  revert s. induction cmds as [|cmd cmds IH]; intros s; simpl; [lia|].
  specialize (IH (step cmd s)).
  unfold messages_in in *. destruct cmd as [| | | | |local_reply outcome text]; simpl in *;
    try lia.
  pose proof (handle_message_requests_step local_reply outcome text s) as H. cbv zeta in H.
  lia.
Qed.

(** X14: when every response reports non-negative token counts, the
    request and token counters never decrease over any sequence of
    updates. *)
Theorem run_counters_mono (cmds : list command) (s : state) :
  cmds_usage_nonneg cmds -> counters_le (usage s) (usage (run cmds s)).
Proof.
  unfold counters_le. revert s. induction cmds as [|cmd cmds IH]; intros s Hn; simpl; [lia|].
  inversion Hn as [|? ? Hcmd Hrest]; subst.
  specialize (IH (step cmd s) Hrest).
  destruct cmd as [| | | | |local_reply outcome text]; simpl in *; try lia.
  pose proof (handle_message_mono local_reply outcome text s Hcmd) as H.
  unfold counters_le in H. lia.
Qed.

Lemma run_counters_mono_witness :
  cmds_usage_nonneg [CmdMessage (fun _ => None)
                       (two_messages_success (UsageDict (Some 100%Z) (Some 50%Z))) [98%Z]]
  /\ counters_le (usage initial_state)
       (usage (run [CmdMessage (fun _ => None)
                     (two_messages_success (UsageDict (Some 100%Z) (Some 50%Z))) [98%Z]]
                   initial_state)).
Proof.
  assert (H : cmds_usage_nonneg [CmdMessage (fun _ => None)
                 (two_messages_success (UsageDict (Some 100%Z) (Some 50%Z))) [98%Z]]).
  { constructor; [|constructor]. intros i p q ch Heq.
    unfold two_messages_success in Heq. injection Heq as <- <- _. simpl. lia. }
  split; [exact H|]. exact (run_counters_mono _ initial_state H).
Defined.

(** X15: when the API call fails (the reply starts with "Sorry,"), the
    stored history ends with the user's message and no assistant turn, so
    the history committed for the next message ends with two consecutive
    user messages. *)
Theorem failed_reply_consecutive_user_turns (local_reply : str -> option str)
    (outcome : nat -> attempt) (u : str) (s : state) (h' : list message) (rt u2 : str)
    (h'' : list message) :
  check_limits (stored_or_seed s) u = Some h' ->
  local_reply u = None ->
  fst (fst (get_perplexity_response h' MAX_RETRIES outcome (usage s))) = PyReturn (Some rt) ->
  startswith SORRY_PREFIX rt = true ->
  check_limits h' u2 = Some h'' ->
  chat_history (fst (handle_message local_reply outcome u s)) = Some h'
  /\ exists pre, h'' = pre ++ [mk_message User u; mk_message User u2].
Proof.
  intros Hc Hl Hr Hs Hc2. split.
  - unfold handle_message. fold (stored_or_seed s). rewrite Hc, Hl.
    destruct (get_perplexity_response h' MAX_RETRIES outcome (usage s)) as [[r c] evs].
    cbn [fst] in Hr. subst r. cbn [fst chat_history]. rewrite Hs. reflexivity.
  - destruct (committed_ends_with_user _ _ _ Hc) as [pre0 ->].
    destruct (check_limits_commit_facts _ _ _ Hc2) as [_ [_ [_ H2]]].
    apply (H2 pre0 [mk_message User u; mk_message User u2]).
    + unfold candidate. rewrite <- app_assoc. reflexivity.
    + simpl. unfold MAX_HISTORY_MESSAGES. lia.
Qed.

Lemma failed_reply_consecutive_user_turns_witness :
  (check_limits (stored_or_seed initial_state) [98%Z]
     = Some (candidate [SYSTEM_PROMPT_MESSAGE] [98%Z])
   /\ (fun _ : str => @None str) [98%Z] = None
   /\ fst (fst (get_perplexity_response (candidate [SYSTEM_PROMPT_MESSAGE] [98%Z]) MAX_RETRIES
                  (fun _ => ARequestError) (usage initial_state)))
      = PyReturn (Some REQUEST_ERROR_MSG)
   /\ startswith SORRY_PREFIX REQUEST_ERROR_MSG = true
   /\ check_limits (candidate [SYSTEM_PROMPT_MESSAGE] [98%Z]) [99%Z]
      = Some (candidate (candidate [SYSTEM_PROMPT_MESSAGE] [98%Z]) [99%Z]))
  /\ exists pre, candidate (candidate [SYSTEM_PROMPT_MESSAGE] [98%Z]) [99%Z]
                 = pre ++ [mk_message User [98%Z]; mk_message User [99%Z]].
Proof.
  assert (H1 : check_limits (stored_or_seed initial_state) [98%Z]
               = Some (candidate [SYSTEM_PROMPT_MESSAGE] [98%Z])) by (vm_compute; reflexivity).
  assert (H2 : (fun _ : str => @None str) [98%Z] = None) by reflexivity.
  assert (H3 : fst (fst (get_perplexity_response (candidate [SYSTEM_PROMPT_MESSAGE] [98%Z])
                           MAX_RETRIES (fun _ => ARequestError) (usage initial_state)))
               = PyReturn (Some REQUEST_ERROR_MSG)) by (vm_compute; reflexivity).
  assert (H4 : startswith SORRY_PREFIX REQUEST_ERROR_MSG = true) by (vm_compute; reflexivity).
  assert (H5 : check_limits (candidate [SYSTEM_PROMPT_MESSAGE] [98%Z]) [99%Z]
               = Some (candidate (candidate [SYSTEM_PROMPT_MESSAGE] [98%Z]) [99%Z]))
    by (vm_compute; reflexivity).
  split; [auto|].
  exact (proj2 (failed_reply_consecutive_user_turns (fun _ => None) (fun _ => ARequestError)
                  [98%Z] initial_state _ _ [99%Z] _ H1 H2 H3 H4 H5)).
Defined.

(** X16: a query made only of ASCII characters never gets a Russian canned
    reply: every canned reply to it is ASCII. *)
Theorem local_responder_ascii (q r : str) :
  is_ascii q -> local_responder q = Some r -> is_ascii r.
Proof.
  intros Hq H. unfold local_responder in H.
  rewrite (contains_ascii GOIDA q ltac:(vm_compute; reflexivity) Hq) in H.
  rewrite (any_in_ascii RUSSIAN_IDENTITY_PHRASES q ltac:(vm_compute; reflexivity) Hq) in H.
  rewrite (any_in_ascii RUSSIAN_GREETING_WORDS q ltac:(vm_compute; reflexivity) Hq) in H.
  rewrite (any_in_ascii RUSSIAN_FAREWELL_WORDS q ltac:(vm_compute; reflexivity) Hq) in H.
  rewrite (any_in_ascii RUSSIAN_THANKS_WORDS q ltac:(vm_compute; reflexivity) Hq) in H.
  rewrite (any_in_ascii RUSSIAN_AFFIRMATION_WORDS q ltac:(vm_compute; reflexivity) Hq) in H.
  rewrite (any_in_ascii RUSSIAN_NEGATION_WORDS q ltac:(vm_compute; reflexivity) Hq) in H.
  rewrite (any_in_ascii STATEMENT_WORDS q ltac:(vm_compute; reflexivity) Hq) in H.
  revert H.
  repeat match goal with |- context [if ?b then _ else _] => destruct b end;
    intros H; try discriminate; injection H as <-;
    apply is_ascii_of_bool; vm_compute; reflexivity.
Qed.

Lemma local_responder_ascii_witness :
  (is_ascii (utf8 "hello") /\ local_responder (utf8 "hello") = Some (utf8 "Hello!"))
  /\ is_ascii (utf8 "Hello!").
Proof.
  assert (H1 : is_ascii (utf8 "hello")) by (apply is_ascii_of_bool; vm_compute; reflexivity).
  assert (H2 : local_responder (utf8 "hello") = Some (utf8 "Hello!")) by (vm_compute; reflexivity).
  split; [split; assumption|]. exact (local_responder_ascii _ _ H1 H2).
Defined.

(** X17: a message the bot answers locally is always stored with its
    reply (no canned reply starts with "Sorry,"), is answered with the
    canned reply untruncated, makes no POST and leaves the counters
    unchanged. *)
Theorem bot_local_reply_stored (normalize : str -> str) (outcome : nat -> attempt)
    (u : str) (s : state) (h' : list message) (r : str) :
  check_limits (stored_or_seed s) u = Some h' ->
  bot_local_reply normalize u = Some r ->
  handle_message (bot_local_reply normalize) outcome u s
  = (mk_state (Some (h' ++ [mk_message Assistant r])) (usage s), [EvTyping; EvReply r]).
Proof.
  intros Hc Hr.
  destruct (canned_replies_ok r (local_responder_replies _ _ Hr)) as [Hs Ht].
  unfold handle_message. fold (stored_or_seed s). rewrite Hc, Hr.
  lazy beta iota zeta. rewrite Hs, Ht. reflexivity.
Qed.

Lemma bot_local_reply_stored_witness :
  (check_limits (stored_or_seed initial_state) (utf8 "hello")
     = Some (candidate [SYSTEM_PROMPT_MESSAGE] (utf8 "hello"))
   /\ bot_local_reply (fun x => x) (utf8 "hello") = Some (utf8 "Hello!"))
  /\ handle_message (bot_local_reply (fun x => x)) (fun _ => ATimeout) (utf8 "hello") initial_state
     = (mk_state (Some (candidate [SYSTEM_PROMPT_MESSAGE] (utf8 "hello")
                        ++ [mk_message Assistant (utf8 "Hello!")])) (usage initial_state),
        [EvTyping; EvReply (utf8 "Hello!")]).
Proof.
  assert (H1 : check_limits (stored_or_seed initial_state) (utf8 "hello")
               = Some (candidate [SYSTEM_PROMPT_MESSAGE] (utf8 "hello"))) by (vm_compute; reflexivity).
  assert (H2 : bot_local_reply (fun x => x) (utf8 "hello") = Some (utf8 "Hello!"))
    by (vm_compute; reflexivity).
  split; [split; assumption|].
  exact (bot_local_reply_stored (fun x => x) (fun _ => ATimeout) (utf8 "hello") initial_state
           _ _ H1 H2).
Defined.

(** X18: a query that mentions neither "гойда" nor an identity phrase and
    starts with "меня зовут", "я живу в", or "мне" together with "лет" or
    "год", gets the reply "Понятно.". *)
Theorem russian_statement_ack (q : str) :
  contains GOIDA q = false ->
  any_in IDENTITY_PHRASES q = false ->
  startswith (utf8 "меня зовут") q = true
  \/ startswith (utf8 "я живу в") q = true
  \/ (startswith (utf8 "мне") q = true
      /\ (contains (utf8 "лет") q = true \/ contains (utf8 "год") q = true)) ->
  local_responder q = Some (utf8 "Понятно.").
Proof.
  intros Hg Hi Hs.
  assert (Hex : exists p, startswith p q = true
            /\ forallb (fun w => negb (startswith p w))
                 (GREETINGS ++ FAREWELLS ++ THANKS ++ AFFIRMATIONS ++ NEGATIONS) = true
            /\ startswith (utf8 "hello") p = false /\ startswith p (utf8 "hello") = false).
  { destruct Hs as [H|[H|[H _]]]; eexists; (split; [exact H|]);
      (split; [vm_compute; reflexivity|split; vm_compute; reflexivity]). }
  destruct Hex as [p [Hp [Hl [Hh1 Hh2]]]].
  destruct (exact_branches_false p q Hp Hl Hh1 Hh2) as (E1 & E2 & E3 & E4 & E5 & E6).
  assert (Hw : any_in STATEMENT_WORDS q = true).
  { destruct Hs as [H|[H|[_ [H|H]]]].
    - apply (any_in_true _ (utf8 "меня")); [left; reflexivity|].
      apply startswith_spec in H as [rest ->]. apply contains_app_l. vm_compute. reflexivity.
    - apply (any_in_true _ (utf8 "живу")); [right; right; left; reflexivity|].
      apply startswith_spec in H as [rest ->]. apply contains_app_l. vm_compute. reflexivity.
    - apply (any_in_true _ (utf8 "лет")); [do 3 right; left; reflexivity|exact H].
    - apply (any_in_true _ (utf8 "год")); [do 4 right; left; reflexivity|exact H]. }
  unfold local_responder. rewrite Hg, Hi, E1, E2, E3, E4, E5, E6, Hw. cbn [orb].
  destruct Hs as [H|[H|[H1 [H2|H2]]]]; rewrite ?H, ?H1, ?H2;
    rewrite ?andb_true_l;
    repeat first [rewrite orb_true_r | rewrite orb_true_l]; reflexivity.
Qed.

Lemma russian_statement_ack_witness :
  (contains GOIDA (utf8 "меня зовут вася") = false
   /\ any_in IDENTITY_PHRASES (utf8 "меня зовут вася") = false
   /\ (startswith (utf8 "меня зовут") (utf8 "меня зовут вася") = true
       \/ startswith (utf8 "я живу в") (utf8 "меня зовут вася") = true
       \/ (startswith (utf8 "мне") (utf8 "меня зовут вася") = true
           /\ (contains (utf8 "лет") (utf8 "меня зовут вася") = true
               \/ contains (utf8 "год") (utf8 "меня зовут вася") = true))))
  /\ local_responder (utf8 "меня зовут вася") = Some (utf8 "Понятно.").
Proof.
  assert (H1 : contains GOIDA (utf8 "меня зовут вася") = false) by (vm_compute; reflexivity).
  assert (H2 : any_in IDENTITY_PHRASES (utf8 "меня зовут вася") = false)
    by (vm_compute; reflexivity).
  assert (H3 : startswith (utf8 "меня зовут") (utf8 "меня зовут вася") = true
       \/ startswith (utf8 "я живу в") (utf8 "меня зовут вася") = true
       \/ (startswith (utf8 "мне") (utf8 "меня зовут вася") = true
           /\ (contains (utf8 "лет") (utf8 "меня зовут вася") = true
               \/ contains (utf8 "год") (utf8 "меня зовут вася") = true)))
    by (left; vm_compute; reflexivity).
  split; [auto|]. exact (russian_statement_ack _ H1 H2 H3).
Defined.
